(** * The debug-proxy shell driver ([ffi/examples/debug_proxy.c])

    A shallow embedding of the example driver: the C library string
    functions it calls on its [command] buffer, the tokenising of an input
    line into a debugserver command, and [main] itself as a program in a
    state-and-trace monad over the functions declared in [idevice.h]. *)

From Stdlib Require Import String Ascii ZArith Lia List.
From stdpp Require Import base option list.
Import ListNotations.

Local Open Scope nat_scope.

(** ** C strings and the [command] array *)

(** A C string without its terminator. *)
Definition cstring := list ascii.

Definition NUL : ascii := "000"%char.
Definition newline : ascii := "010"%char.
Definition space : ascii := " "%char.

Definition is_nul (c : ascii) : bool := Ascii.eqb c NUL.

(** A string literal of the source. *)
Definition lit (s : string) : cstring := list_ascii_of_string s.

(** [#define MAX_COMMAND_LENGTH 1024] *)
Definition MAX_COMMAND_LENGTH : nat := 1024.

(** Membership of a character in the set given by a literal. *)
Definition char_in (c : ascii) (set : cstring) : bool :=
  existsb (Ascii.eqb c) set.

(** An array access is checked: reading or writing outside the array is
    undefined behaviour in C, which the model reports as [None]. *)
Definition load {A} (a : list A) (i : nat) : option A := a !! i.

Definition store {A} (a : list A) (i : nat) (c : A) : option (list A) :=
  if decide (i < length a) then Some (<[i := c]> a) else None.

(** A pointer into the array is an offset; what a library function sees
    behind it is the rest of the array from there. *)
Definition from (a : list ascii) (p : nat) : list ascii := drop p a.

(** [strspn(s, accept)]: the length of the initial segment of [s] made of
    characters of [accept].  Running off the array before a terminator is
    found is a fault. *)
Fixpoint strspn (s : list ascii) (accept : cstring) : option nat :=
  match s with
  | [] => None
  | c :: s' =>
      if is_nul c then Some 0
      else if char_in c accept then S <$> strspn s' accept
      else Some 0
  end.

(** [strcspn(s, reject)]: the length of the initial segment of [s] made of
    characters not in [reject]. *)
Fixpoint strcspn (s : list ascii) (reject : cstring) : option nat :=
  match s with
  | [] => None
  | c :: s' =>
      if is_nul c then Some 0
      else if char_in c reject then Some 0
      else S <$> strcspn s' reject
  end.

(** [strcmp(s1, s2)]: zero when the two strings are equal, otherwise the
    difference of the first two characters that differ. *)
Fixpoint strcmp (s1 s2 : list ascii) : option Z :=
  match s1, s2 with
  | c1 :: s1', c2 :: s2' =>
      if Ascii.eqb c1 c2 then
        if is_nul c1 then Some 0%Z else strcmp s1' s2'
      else Some (Z.of_nat (nat_of_ascii c1) - Z.of_nat (nat_of_ascii c2))%Z
  | _, _ => None
  end.

(** The string a pointer designates, as a callee reads it: the characters
    up to the first terminator (or to the end of the array). *)
Fixpoint string_of (s : list ascii) : cstring :=
  match s with
  | [] => []
  | c :: s' => if is_nul c then [] else c :: string_of s'
  end.

(** [strtok(s, delim)] on the array [a].  The library keeps one saved
    pointer between calls ([save]; null before the first call).  The
    token returned is a pointer into [a]; the delimiter that ends it is
    overwritten with a terminator. *)
Definition strtok (s : option nat) (delim : cstring)
    (m : list ascii * option nat) : option (option nat * (list ascii * option nat)) :=
  let '(a, save) := m in
  s0 ← (match s with Some p => Some p | None => save end);
  n ← strspn (from a s0) delim;
  let tok := s0 + n in
  c ← load a tok;
  if is_nul c then Some (None, (a, Some tok))
  else
    k ← strcspn (from a tok) delim;
    let e := tok + k in
    c' ← load a e;
    if is_nul c' then Some (Some tok, (a, Some e))
    else
      a' ← store a e NUL;
      Some (Some tok, (a', Some (e + 1))).

(** [fgets(buf, size, stdin)]: reads at most [size - 1] characters,
    stopping after a newline or at end of file. *)
Fixpoint fgets_read (n : nat) (input : list ascii) : list ascii * list ascii :=
  match n, input with
  | S n', c :: rest =>
      if Ascii.eqb c newline then ([c], rest)
      else let '(l, r) := fgets_read n' rest in (c :: l, r)
  | _, _ => ([], input)
  end.

(** Writing [l] into the array from offset [i] on. *)
Fixpoint store_all (a : list ascii) (i : nat) (l : list ascii) : option (list ascii) :=
  match l with
  | [] => Some a
  | c :: l' => a' ← store a i c; store_all a' (S i) l'
  end.

Inductive fgets_result :=
| FgetsNull
| FgetsLine (chars : list ascii) (buf : list ascii) (rest : list ascii).

(** The characters read are stored followed by a terminator; when nothing
    could be read the array is left alone and the result is null. *)
Definition fgets (buf : list ascii) (size : nat) (input : list ascii) : option fgets_result :=
  match fgets_read (size - 1) input with
  | ([], _) => Some FgetsNull
  | (chars, rest) =>
      buf' ← store_all buf 0 (chars ++ [NUL]);
      Some (FgetsLine chars buf' rest)
  end.

(** ** Splitting a line into a command name and its arguments

    Lines 160-179 of [main].  Pointers into [command] are offsets; [argv]
    is the local array of sixteen token pointers, all null at first. *)

Definition mem : Type := list ascii * option nat.

(** The [while (token != NULL && argc < 15)] loop.  It runs at most
    fifteen times, since [argc] grows by one each round; [steps] bounds
    the number of rounds and is never exhausted when it exceeds
    [15 - argc]. *)
Fixpoint split_arguments (steps : nat) (token : option nat) (argc : nat)
    (argv : list (option nat)) (m : mem) : option (nat * list (option nat) * mem) :=
  match steps with
  | 0 => Some (argc, argv, m)
  | S steps' =>
      match token with
      | Some t =>
          if argc <? 15 then
            argv' ← store argv argc (Some t);
            '(token', m') ← strtok None (lit " ") m;
            split_arguments steps' token' (S argc) argv' m'
          else Some (argc, argv, m)
      | None => Some (argc, argv, m)
      end
  end.

(** What is handed to [debugserver_command_new]: the name pointer, the
    argument array (or null) and the argument count. *)
Record command_args := {
  arg_name : option nat;
  arg_argv : option (list (option nat));
  arg_argc : nat;
  arg_mem : mem
}.

(** The test [args != NULL && args[0] != '\0']. *)
Definition has_arguments (a : list ascii) (args : option nat) : option bool :=
  match args with
  | Some p => c ← load a p; Some (negb (is_nul c))
  | None => Some false
  end.

Definition split_line (command : list ascii) (save : option nat) : option command_args :=
  '(name, m) ← strtok (Some 0) (lit " ") (command, save);
  '(args, m) ← strtok None (lit "") m;
  nonempty ← has_arguments m.1 args;
  if nonempty : bool then
    let argv := replicate 16 None in
    '(token, m) ← strtok args (lit " ") m;
    '(argc, argv, m) ← split_arguments 16 token 0 argv m;
    Some {| arg_name := name; arg_argv := Some argv; arg_argc := argc; arg_mem := m |}
  else
    Some {| arg_name := name; arg_argv := None; arg_argc := 0; arg_mem := m |}.

(** The strings the callee finds behind the pointers it is given. *)
Definition deref (a : list ascii) (p : option nat) : option cstring :=
  option_map (fun p => string_of (from a p)) p.

Definition deref_all (a : list ascii) (argv : option (list (option nat)))
  : option (list (option cstring)) :=
  option_map (map (deref a)) argv.

(** ** The library behind [idevice.h]

    The header is not part of the example: its constants are parameters
    and each of its functions is a transition of the state [W] of
    everything outside the driver (the device, the network, the library's
    heap).  A function with out-parameters returns their values next to
    its error code. *)

Definition ptr := Z.
Definition NULL : ptr := 0%Z.

Record sockaddr_in := {
  sin_family : Z;
  sin_port : Z;
  sin_addr : Z
}.

Record Library (W : Type) := {
  IdeviceSuccess : Z;
  LOCKDOWN_PORT : Z;
  AF_INET : Z;
  htons : Z -> Z;
  (* the return value and the address stored on success *)
  inet_pton : Z -> cstring -> Z * Z;
  ffi_idevice_init_logger : W -> W;
  ffi_idevice_pairing_file_read : cstring -> W -> Z * ptr * W;
  ffi_idevice_pairing_file_free : ptr -> W -> W;
  ffi_idevice_tcp_provider_new : sockaddr_in -> ptr -> cstring -> W -> Z * ptr * W;
  ffi_idevice_provider_free : ptr -> W -> W;
  ffi_core_device_proxy_connect : ptr -> W -> Z * ptr * W;
  ffi_core_device_proxy_get_server_rsd_port : ptr -> W -> Z * Z * W;
  ffi_core_device_proxy_free : ptr -> W -> W;
  ffi_core_device_proxy_create_tcp_adapter : ptr -> W -> Z * ptr * W;
  ffi_adapter_connect : ptr -> Z -> W -> Z * ptr * W;
  ffi_adapter_close : ptr -> W -> W;
  ffi_adapter_free : ptr -> W -> W;
  ffi_rsd_handshake_new : ptr -> W -> Z * ptr * W;
  ffi_rsd_handshake_free : ptr -> W -> W;
  ffi_debug_proxy_connect_rsd : ptr -> ptr -> W -> Z * ptr * W;
  ffi_debug_proxy_free : ptr -> W -> W;
  ffi_debugserver_command_new :
    option cstring -> option (list (option cstring)) -> nat -> W -> ptr * W;
  ffi_debugserver_command_free : ptr -> W -> W;
  ffi_debug_proxy_send_command : ptr -> ptr -> W -> Z * option cstring * W;
  ffi_debug_proxy_read_response : ptr -> W -> Z * option cstring * W;
  ffi_idevice_string_free : option cstring -> W -> W
}.

Arguments IdeviceSuccess {W} _.
Arguments LOCKDOWN_PORT {W} _.
Arguments AF_INET {W} _.
Arguments htons {W} _ _.
Arguments inet_pton {W} _ _ _.

(** ** What a run of the driver does: its trace *)

Inductive stream := stdout | stderr.

Inductive printf_arg :=
| ArgInt (z : Z)
| ArgStr (s : option cstring).

(** One event per call the driver makes, with the arguments passed and
    the values returned.  Format strings are kept as the source writes
    them. *)
Inductive Event :=
| Ev_printf (to : stream) (format : string) (args : list printf_arg)
| Ev_fflush (to : stream)
| Ev_fgets (chars : option (list ascii))
| Ev_init_logger
| Ev_pairing_file_read (path : cstring) (err : Z) (pairing : ptr)
| Ev_pairing_file_free (pairing : ptr)
| Ev_tcp_provider_new (addr : sockaddr_in) (pairing : ptr) (label : cstring)
    (err : Z) (provider : ptr)
| Ev_provider_free (provider : ptr)
| Ev_core_device_proxy_connect (provider : ptr) (err : Z) (core_device : ptr)
| Ev_get_server_rsd_port (core_device : ptr) (err : Z) (port : Z)
| Ev_core_device_proxy_free (core_device : ptr)
| Ev_create_tcp_adapter (core_device : ptr) (err : Z) (adapter : ptr)
| Ev_adapter_connect (adapter : ptr) (port : Z) (err : Z) (conn : ptr)
| Ev_adapter_close (conn : ptr)
| Ev_adapter_free (adapter : ptr)
| Ev_rsd_handshake_new (conn : ptr) (err : Z) (handshake : ptr)
| Ev_rsd_handshake_free (handshake : ptr)
| Ev_debug_proxy_connect_rsd (adapter handshake : ptr) (err : Z) (debug_proxy : ptr)
| Ev_debug_proxy_free (debug_proxy : ptr)
| Ev_command_new (name : option cstring) (argv : option (list (option cstring)))
    (argc : nat) (cmd : ptr)
| Ev_command_free (cmd : ptr)
| Ev_send_command (debug_proxy cmd : ptr) (err : Z) (response : option cstring)
| Ev_read_response (debug_proxy : ptr) (err : Z) (response : option cstring)
| Ev_string_free (s : option cstring).

(** How a run ends: [main] returns, or the model stops because a loop ran
    out of fuel or an array access was out of bounds. *)
Inductive Outcome :=
| Returned (code : Z)
| OutOfFuel
| Fault.

(** How a loop is left: normally, or by ending the run. *)
Inductive Flow :=
| Next
| Halt (o : Outcome).

(** ** The driver *)

Section Driver.

Context {W : Type} (lib : Library W).

(** A computation changes the outside state and appends to the trace. *)
Definition M (A : Type) : Type := W -> A * W * list Event.

Definition ret {A} (a : A) : M A := fun w => (a, w, []).

Definition bind {A B} (m : M A) (f : A -> M B) : M B :=
  fun w =>
    let '(a, w1, t1) := m w in
    let '(b, w2, t2) := f a w1 in
    (b, w2, t1 ++ t2).

Definition emit (e : Event) : M unit := fun w => (tt, w, [e]).

Definition call {A} (f : W -> A * W) (ev : A -> Event) : M A :=
  fun w => let '(a, w') := f w in (a, w', [ev a]).

Definition call_void (f : W -> W) (ev : Event) : M unit :=
  fun w => (tt, f w, [ev]).

End Driver.

Arguments ret {W A} a.
Arguments bind {W A B} m f.
Arguments emit {W} e.
Arguments call {W A} f ev.
Arguments call_void {W} f ev.

Declare Scope driver_scope.
Delimit Scope driver_scope with driver.

Notation "x <- m ;; k" := (bind m (fun x => k))
  (at level 20, m at level 99, k at level 200, only parsing) : driver_scope.
Notation "' pat <- m ;; k" := (bind m (fun x => match x with pat => k end))
  (at level 20, pat pattern, m at level 99, k at level 200, only parsing) : driver_scope.
Notation "m ;; k" := (bind m (fun _ => k))
  (at level 100, k at level 200, only parsing, right associativity) : driver_scope.
Notation "x <-! e ;; k" :=
  (match e with Some x => k | None => ret (Halt Fault) end)
  (at level 20, e at level 99, k at level 200, only parsing) : driver_scope.
Notation "' pat <-! e ;; k" :=
  (match e with Some pat => k | None => ret (Halt Fault) end)
  (at level 20, pat pattern, e at level 99, k at level 200, only parsing) : driver_scope.

Section Program.

Context {W : Type} (lib : Library W).

Local Open Scope driver_scope.

Definition printf (format : string) (args : list printf_arg) : M (W := W) unit :=
  emit (Ev_printf stdout format args).

Definition fprintf (to : stream) (format : string) (args : list printf_arg) : M (W := W) unit :=
  emit (Ev_printf to format args).

Definition fflush (to : stream) : M (W := W) unit := emit (Ev_fflush to).

(** The calls into the library, each leaving its event. *)

Definition idevice_init_logger : M unit :=
  call_void (ffi_idevice_init_logger W lib) Ev_init_logger.

Definition idevice_pairing_file_read (path : cstring) : M (Z * ptr) :=
  call (ffi_idevice_pairing_file_read W lib path)
    (fun r => Ev_pairing_file_read path r.1 r.2).

Definition idevice_pairing_file_free (pairing : ptr) : M unit :=
  call_void (ffi_idevice_pairing_file_free W lib pairing) (Ev_pairing_file_free pairing).

Definition idevice_tcp_provider_new (addr : sockaddr_in) (pairing : ptr)
    (label : cstring) : M (Z * ptr) :=
  call (ffi_idevice_tcp_provider_new W lib addr pairing label)
    (fun r => Ev_tcp_provider_new addr pairing label r.1 r.2).

Definition idevice_provider_free (provider : ptr) : M unit :=
  call_void (ffi_idevice_provider_free W lib provider) (Ev_provider_free provider).

Definition core_device_proxy_connect (provider : ptr) : M (Z * ptr) :=
  call (ffi_core_device_proxy_connect W lib provider)
    (fun r => Ev_core_device_proxy_connect provider r.1 r.2).

Definition core_device_proxy_get_server_rsd_port (core_device : ptr) : M (Z * Z) :=
  call (ffi_core_device_proxy_get_server_rsd_port W lib core_device)
    (fun r => Ev_get_server_rsd_port core_device r.1 r.2).

Definition core_device_proxy_free (core_device : ptr) : M unit :=
  call_void (ffi_core_device_proxy_free W lib core_device)
    (Ev_core_device_proxy_free core_device).

Definition core_device_proxy_create_tcp_adapter (core_device : ptr) : M (Z * ptr) :=
  call (ffi_core_device_proxy_create_tcp_adapter W lib core_device)
    (fun r => Ev_create_tcp_adapter core_device r.1 r.2).

Definition adapter_connect (adapter : ptr) (port : Z) : M (Z * ptr) :=
  call (ffi_adapter_connect W lib adapter port)
    (fun r => Ev_adapter_connect adapter port r.1 r.2).

Definition adapter_close (conn : ptr) : M unit :=
  call_void (ffi_adapter_close W lib conn) (Ev_adapter_close conn).

Definition adapter_free (adapter : ptr) : M unit :=
  call_void (ffi_adapter_free W lib adapter) (Ev_adapter_free adapter).

Definition rsd_handshake_new (conn : ptr) : M (Z * ptr) :=
  call (ffi_rsd_handshake_new W lib conn)
    (fun r => Ev_rsd_handshake_new conn r.1 r.2).

Definition rsd_handshake_free (handshake : ptr) : M unit :=
  call_void (ffi_rsd_handshake_free W lib handshake) (Ev_rsd_handshake_free handshake).

Definition debug_proxy_connect_rsd (adapter handshake : ptr) : M (Z * ptr) :=
  call (ffi_debug_proxy_connect_rsd W lib adapter handshake)
    (fun r => Ev_debug_proxy_connect_rsd adapter handshake r.1 r.2).

Definition debug_proxy_free (debug_proxy : ptr) : M unit :=
  call_void (ffi_debug_proxy_free W lib debug_proxy) (Ev_debug_proxy_free debug_proxy).

Definition debugserver_command_new (name : option cstring)
    (argv : option (list (option cstring))) (argc : nat) : M ptr :=
  call (ffi_debugserver_command_new W lib name argv argc)
    (fun cmd => Ev_command_new name argv argc cmd).

Definition debugserver_command_free (cmd : ptr) : M unit :=
  call_void (ffi_debugserver_command_free W lib cmd) (Ev_command_free cmd).

Definition debug_proxy_send_command (debug_proxy cmd : ptr) : M (Z * option cstring) :=
  call (ffi_debug_proxy_send_command W lib debug_proxy cmd)
    (fun r => Ev_send_command debug_proxy cmd r.1 r.2).

Definition debug_proxy_read_response (debug_proxy : ptr) : M (Z * option cstring) :=
  call (ffi_debug_proxy_read_response W lib debug_proxy)
    (fun r => Ev_read_response debug_proxy r.1 r.2).

Definition idevice_string_free (s : option cstring) : M unit :=
  call_void (ffi_idevice_string_free W lib s) (Ev_string_free s).

(** [err != IdeviceSuccess] *)
Definition failed (err : Z) : bool := negb (err =? IdeviceSuccess lib)%Z.

Definition print_usage (program_name : option cstring) : M (W := W) unit :=
  printf "Usage: %s <device_ip> [pairing_file]\n" [ArgStr program_name] ;;
  printf "Example: %s 10.0.0.1 pairing.plist\n" [ArgStr program_name].

(** The inner [while (true)] of the shell, lines 204-211: read further
    responses until a read fails or yields null. *)
Fixpoint read_responses (fuel : nat) (debug_proxy : ptr) : M Flow :=
  match fuel with
  | 0 => ret (Halt OutOfFuel)
  | S fuel' =>
      '(err, response) <- debug_proxy_read_response debug_proxy ;;
      if failed err || negb (bool_decide (is_Some response)) then ret Next
      else
        printf "%s\n" [ArgStr response] ;;
        idevice_string_free response ;;
        read_responses fuel' debug_proxy
  end.

(** The interactive shell, lines 144-212.  [command] and the saved
    pointer of [strtok] live across rounds. *)
Fixpoint shell (fuel : nat) (debug_proxy : ptr) (running : bool)
    (stdin : list ascii) (command : list ascii) (save : option nat) : M Flow :=
  if negb running then ret Next
  else
    match fuel with
    | 0 => ret (Halt OutOfFuel)
    | S fuel' =>
        printf "debug> " [] ;;
        fflush stdout ;;
        r <-! fgets command MAX_COMMAND_LENGTH stdin ;;
        match r with
        | FgetsNull => emit (Ev_fgets None) ;; ret Next
        | FgetsLine chars command stdin =>
            emit (Ev_fgets (Some chars)) ;;
            (* Remove newline *)
            n <-! strcspn command [newline] ;;
            command <-! store command n NUL ;;
            z <-! strcmp command (lit "quit" ++ [NUL]) ;;
            if (z =? 0)%Z then
              shell fuel' debug_proxy false stdin command save
            else
              (* Split command into name and arguments, create command *)
              a <-! split_line command save ;;
              let '(command, save) := a.(arg_mem) in
              cmd <- debugserver_command_new (deref command a.(arg_name))
                       (deref_all command a.(arg_argv)) a.(arg_argc) ;;
              if (cmd =? NULL)%Z then
                fprintf stderr "Failed to create command\n" [] ;;
                shell fuel' debug_proxy true stdin command save
              else
                (* Send command *)
                '(err, response) <- debug_proxy_send_command debug_proxy cmd ;;
                debugserver_command_free cmd ;;
                if failed err then
                  fprintf stderr "Command failed with error: %d\n" [ArgInt err] ;;
                  shell fuel' debug_proxy true stdin command save
                else
                  (if bool_decide (is_Some response) then
                     printf "%s\n" [ArgStr response] ;;
                     idevice_string_free response
                   else
                     printf "(no response)\n" []) ;;
                  (* Read any additional responses *)
                  flow <- read_responses fuel' debug_proxy ;;
                  match flow with
                  | Next => shell fuel' debug_proxy true stdin command save
                  | Halt o => ret (Halt o)
                  end
        end
    end.

(** [main].  [argv] holds the [argc] program arguments; [stack] is what
    the uninitialised [command] array happens to contain. *)
Definition main (fuel : nat) (argv : list cstring) (stdin : list ascii)
    (stack : nat -> ascii) : M Outcome :=
  let argc := length argv in
  (* Initialize logger *)
  idevice_init_logger ;;
  if argc <? 2 then
    print_usage (argv !! 0) ;;
    ret (Returned 1)
  else
  let device_ip := nth 1 argv [] in
  let pairing_file := if 2 <? argc then nth 2 argv [] else lit "pairing.plist" in
  printf "=== Setting up CoreDeviceProxy ===\n" [] ;;
  (* Create socket address *)
  let '(ok, ip) := inet_pton lib (AF_INET lib) device_ip in
  let addr := {| sin_family := AF_INET lib;
                 sin_port := htons lib (LOCKDOWN_PORT lib);
                 sin_addr := if (ok =? 1)%Z then ip else 0%Z |} in
  if negb (ok =? 1)%Z then
    fprintf stderr "Invalid IP address\n" [] ;;
    ret (Returned 1)
  else
  (* Read pairing file *)
  '(err, pairing) <- idevice_pairing_file_read pairing_file ;;
  if failed err then
    fprintf stderr "Failed to read pairing file: %d\n" [ArgInt err] ;;
    ret (Returned 1)
  else
  (* Create TCP provider *)
  '(err, tcp_provider) <- idevice_tcp_provider_new addr pairing (lit "DebugProxyShell") ;;
  if failed err then
    fprintf stderr "Failed to create TCP provider: %d\n" [ArgInt err] ;;
    idevice_pairing_file_free pairing ;;
    ret (Returned 1)
  else
  (* Connect to CoreDeviceProxy *)
  '(err, core_device) <- core_device_proxy_connect tcp_provider ;;
  if failed err then
    fprintf stderr "Failed to connect to CoreDeviceProxy: %d\n" [ArgInt err] ;;
    idevice_provider_free tcp_provider ;;
    ret (Returned 1)
  else
  idevice_provider_free tcp_provider ;;
  (* Get server RSD port *)
  '(err, rsd_port) <- core_device_proxy_get_server_rsd_port core_device ;;
  if failed err then
    fprintf stderr "Failed to get server RSD port: %d\n" [ArgInt err] ;;
    core_device_proxy_free core_device ;;
    ret (Returned 1)
  else
  printf "Server RSD Port: %d\n" [ArgInt rsd_port] ;;
  printf "\n=== Creating TCP Tunnel Adapter ===\n" [] ;;
  '(err, adapter) <- core_device_proxy_create_tcp_adapter core_device ;;
  if failed err then
    fprintf stderr "Failed to create TCP adapter: %d\n" [ArgInt err] ;;
    core_device_proxy_free core_device ;;
    ret (Returned 1)
  else
  (* Connect to RSD port *)
  '(err, conn) <- adapter_connect adapter rsd_port ;;
  if failed err then
    fprintf stderr "Failed to connect to RSD port: %d\n" [ArgInt err] ;;
    adapter_free adapter ;;
    ret (Returned 1)
  else
  printf "Successfully connected to RSD port\n" [] ;;
  printf "\n=== Performing RSD Handshake ===\n" [] ;;
  '(err, handshake) <- rsd_handshake_new conn ;;
  if failed err then
    fprintf stderr "Failed to perform RSD handshake: %d\n" [ArgInt err] ;;
    adapter_close conn ;;
    adapter_free adapter ;;
    ret (Returned 1)
  else
  printf "\n=== Setting up Debug Proxy ===\n" [] ;;
  (* Create DebugProxyClient *)
  '(err, debug_proxy) <- debug_proxy_connect_rsd adapter handshake ;;
  if failed err then
    fprintf stderr "Failed to create debug proxy client: %d\n" [ArgInt err] ;;
    rsd_handshake_free handshake ;;
    adapter_free adapter ;;
    ret (Returned 1)
  else
  printf "\n=== Starting Interactive Debug Shell ===\n" [] ;;
  printf "Type GDB debugserver commands or 'quit' to exit\n\n" [] ;;
  let command := map stack (seq 0 MAX_COMMAND_LENGTH) in
  flow <- shell fuel debug_proxy true stdin command None ;;
  match flow with
  | Halt o => ret o
  | Next =>
      (* Cleanup *)
      debug_proxy_free debug_proxy ;;
      rsd_handshake_free handshake ;;
      adapter_free adapter ;;
      printf "\nDebug session ended\n" [] ;;
      ret (Returned 0)
  end.

(** The result of running [main] from outside state [w]. *)
Definition outcome_of (r : Outcome * W * list Event) : Outcome := r.1.1.
Definition trace_of (r : Outcome * W * list Event) : list Event := r.2.

End Program.

(** ** Vocabulary of the specification *)

(** The fields of a line: what lies between its spaces. *)
Fixpoint fields (s : cstring) : list cstring :=
  match s with
  | [] => [[]]
  | c :: s' =>
      if Ascii.eqb c space then [] :: fields s'
      else match fields s' with
           | f :: fs => (c :: f) :: fs
           | [] => [[c]]
           end
  end.

(** The space-delimited tokens of a line: its non-empty fields. *)
Definition tokens (s : cstring) : list cstring :=
  filter (fun f => f <> []) (fields s).

(** The array [a] holds at offset [p] the string [t] and its terminator. *)
Definition cstr_at (a : list ascii) (p : nat) (t : cstring) : Prop :=
  exists pre post, a = pre ++ t ++ NUL :: post /\ length pre = p /\ NUL ∉ t.

(** A token pointer collected so far: it designates [t], which ends no
    later than [bound]. *)
Definition holds (a : list ascii) (bound : nat) (po : option nat) (t : cstring) : Prop :=
  exists p, po = Some p /\ cstr_at a p t /\ p + length t <= bound.

(** The line the shell works on: the characters read, up to the first
    newline (or terminator). *)
Fixpoint entered_line (chars : list ascii) : cstring :=
  match chars with
  | [] => []
  | c :: l => if is_nul c || Ascii.eqb c newline then [] else c :: entered_line l
  end.

(** The arguments a callee given [argv] and [argc] reads: the first
    [argc] entries of the array. *)
Definition passed (argv : option (list (option cstring))) (argc : nat)
  : list (option cstring) :=
  match argv with Some l => take argc l | None => [] end.

(** The command built from a line: its first token as the name, the first
    fifteen of the following tokens as the arguments. *)
Definition command_of_line (line : cstring) (name : option cstring)
    (argv : option (list (option cstring))) (argc : nat) : Prop :=
  name = head (tokens line) /\
  passed argv argc = map Some (take 15 (tail (tokens line))) /\
  argc = length (take 15 (tail (tokens line))).

Definition prompt : list Event :=
  [Ev_printf stdout "debug> " []; Ev_fflush stdout].

(** What the shell prints for the response [debug_proxy_send_command]
    itself returned. *)
Definition first_reply (response : option cstring) : list Event :=
  if bool_decide (is_Some response)
  then [Ev_printf stdout "%s\n" [ArgStr response]; Ev_string_free response]
  else [Ev_printf stdout "(no response)\n" []].

(** The end of a normal run: lines 217-221. *)
Definition cleanup (debug_proxy handshake adapter : ptr) : list Event :=
  [Ev_debug_proxy_free debug_proxy; Ev_rsd_handshake_free handshake;
   Ev_adapter_free adapter; Ev_printf stdout "\nDebug session ended\n" []].

(** What [fgets] gave makes the shell leave its loop: end of file, or the
    line [quit]. *)
Definition leaves_shell (got : option (list ascii)) : Prop :=
  got = None \/ exists chars, got = Some chars /\ entered_line chars = lit "quit".

(** The next thing the run does is prompt for a command, unless the model
    stopped for lack of fuel. *)
Definition followed_by_prompt (out : Outcome) (l : list Event) : Prop :=
  (exists l', l = prompt ++ l') \/ (l = [] /\ out = OutOfFuel).

(** A property of every event of a trace, given what precedes and what
    follows it. *)
Fixpoint each_split (P : list Event -> Event -> list Event -> Prop)
    (pre tr : list Event) : Prop :=
  match tr with
  | [] => True
  | e :: tr' => P pre e tr' /\ each_split P (pre ++ [e]) tr'
  end.

(** The events the shell loop can leave. *)
Definition shell_event (e : Event) : bool :=
  match e with
  | Ev_printf _ _ _ | Ev_fflush _ | Ev_fgets _ | Ev_command_new _ _ _ _
  | Ev_command_free _ | Ev_send_command _ _ _ _ | Ev_read_response _ _ _
  | Ev_string_free _ => true
  | _ => false
  end.

(** The events that show the replies to a command. *)
Definition reply_event (e : Event) : bool :=
  match e with
  | Ev_printf stdout _ _ | Ev_read_response _ _ _ | Ev_string_free _ => true
  | _ => false
  end.

(** The setup stages, numbered in the order of the source, with the error
    code each call returned. *)
Definition stage (e : Event) : option (nat * Z) :=
  match e with
  | Ev_pairing_file_read _ err _ => Some (0, err)
  | Ev_tcp_provider_new _ _ _ err _ => Some (1, err)
  | Ev_core_device_proxy_connect _ err _ => Some (2, err)
  | Ev_get_server_rsd_port _ err _ => Some (3, err)
  | Ev_create_tcp_adapter _ err _ => Some (4, err)
  | Ev_adapter_connect _ _ err _ => Some (5, err)
  | Ev_rsd_handshake_new _ err _ => Some (6, err)
  | Ev_debug_proxy_connect_rsd _ _ err _ => Some (7, err)
  | _ => None
  end.



(** The error code of a call that returns one. *)
Definition error_code (e : Event) : option Z :=
  match e with
  | Ev_send_command _ _ err _ | Ev_read_response _ err _ => Some err
  | _ => snd <$> stage e
  end.

Definition is_read_response (e : Event) : bool :=
  match e with Ev_read_response _ _ _ => true | _ => false end.

(** The failure [err] is reported next: a message on [stderr] carrying
    the code, at once or right after the command is freed. *)
Definition reported (err : Z) (l : list Event) : Prop :=
  exists format rest,
    l = Ev_printf stderr format [ArgInt err] :: rest \/
    exists cmd, l = Ev_command_free cmd :: Ev_printf stderr format [ArgInt err] :: rest.

(** Something is written to [stderr] somewhere in [l]. *)
Definition some_diagnostic (l : list Event) : Prop :=
  exists format args, In (Ev_printf stderr format args) l.

(** A call on the CoreDeviceProxy handle, or one that makes it. *)
Definition core_device_call (e : Event) : bool :=
  match e with
  | Ev_core_device_proxy_connect _ _ _ | Ev_get_server_rsd_port _ _ _
  | Ev_core_device_proxy_free _ | Ev_create_tcp_adapter _ _ _ => true
  | _ => false
  end.

Definition is_port_query (e : Event) : bool :=
  match e with Ev_get_server_rsd_port _ _ _ => true | _ => false end.

Definition is_adapter_connect (e : Event) : bool :=
  match e with Ev_adapter_connect _ _ _ _ => true | _ => false end.

(** The creation or the sending of a command. *)
Definition command_event (e : Event) : bool :=
  match e with
  | Ev_command_new _ _ _ _ | Ev_send_command _ _ _ _ => true
  | _ => false
  end.

Definition frees_debug_proxy (e : Event) : bool :=
  match e with Ev_debug_proxy_free _ => true | _ => false end.

Definition frees_handshake (e : Event) : bool :=
  match e with Ev_rsd_handshake_free _ => true | _ => false end.

Definition frees_adapter (e : Event) : bool :=
  match e with Ev_adapter_free _ => true | _ => false end.

(** How many events of a kind a trace has. *)
Definition count (kind : Event -> bool) (tr : list Event) : nat :=
  length (List.filter kind tr).

(** Every drain of the library ends: from any state, repeated reads reach
    one that fails or yields null. *)
Definition drains_end {W} (lib : Library W) : Prop :=
  forall debug_proxy w, exists n w' tr,
    read_responses lib n debug_proxy w = (Next, w', tr).

Section Grammar.

Context {W : Type} (lib : Library W).

(** The events of the inner loop: packets read, printed and freed in
    turn, up to the read that fails or yields null. *)
Inductive Drain (debug_proxy : ptr) : list Event -> Flow -> Prop :=
| Drain_starved : Drain debug_proxy [] (Halt OutOfFuel)
| Drain_stop err response :
    failed lib err = true \/ response = None ->
    Drain debug_proxy [Ev_read_response debug_proxy err response] Next
| Drain_packet err r tr fl :
    failed lib err = false ->
    Drain debug_proxy tr fl ->
    Drain debug_proxy
      (Ev_read_response debug_proxy err (Some r)
         :: Ev_printf stdout "%s\n" [ArgStr (Some r)]
         :: Ev_string_free (Some r) :: tr) fl.

(** The traces of the shell loop, round by round: the prompt, the line
    read, the command built from it, and what becomes of the command. *)
Inductive Shell (debug_proxy : ptr) : list Event -> Flow -> Prop :=
| Shell_starved : Shell debug_proxy [] (Halt OutOfFuel)
| Shell_eof : Shell debug_proxy (prompt ++ [Ev_fgets None]) Next
| Shell_quit chars :
    length chars <= MAX_COMMAND_LENGTH - 1 ->
    entered_line chars = lit "quit" ->
    Shell debug_proxy (prompt ++ [Ev_fgets (Some chars)]) Next
| Shell_no_command chars name argv argc tr fl :
    length chars <= MAX_COMMAND_LENGTH - 1 ->
    entered_line chars <> lit "quit" ->
    command_of_line (entered_line chars) name argv argc ->
    Shell debug_proxy tr fl ->
    Shell debug_proxy
      (prompt ++ Ev_fgets (Some chars)
         :: Ev_command_new name argv argc NULL
         :: Ev_printf stderr "Failed to create command\n" [] :: tr) fl
| Shell_send_failed chars name argv argc cmd err response tr fl :
    length chars <= MAX_COMMAND_LENGTH - 1 ->
    entered_line chars <> lit "quit" ->
    command_of_line (entered_line chars) name argv argc ->
    cmd <> NULL -> failed lib err = true ->
    Shell debug_proxy tr fl ->
    Shell debug_proxy
      (prompt ++ Ev_fgets (Some chars)
         :: Ev_command_new name argv argc cmd
         :: Ev_send_command debug_proxy cmd err response
         :: Ev_command_free cmd
         :: Ev_printf stderr "Command failed with error: %d\n" [ArgInt err]
         :: tr) fl
| Shell_sent chars name argv argc cmd err response drained tr fl :
    length chars <= MAX_COMMAND_LENGTH - 1 ->
    entered_line chars <> lit "quit" ->
    command_of_line (entered_line chars) name argv argc ->
    cmd <> NULL -> failed lib err = false ->
    Drain debug_proxy drained Next ->
    Shell debug_proxy tr fl ->
    Shell debug_proxy
      (prompt ++ Ev_fgets (Some chars)
         :: Ev_command_new name argv argc cmd
         :: Ev_send_command debug_proxy cmd err response
         :: Ev_command_free cmd
         :: first_reply response ++ drained ++ tr) fl
| Shell_sent_starved chars name argv argc cmd err response drained o :
    length chars <= MAX_COMMAND_LENGTH - 1 ->
    entered_line chars <> lit "quit" ->
    command_of_line (entered_line chars) name argv argc ->
    cmd <> NULL -> failed lib err = false ->
    Drain debug_proxy drained (Halt o) ->
    Shell debug_proxy
      (prompt ++ Ev_fgets (Some chars)
         :: Ev_command_new name argv argc cmd
         :: Ev_send_command debug_proxy cmd err response
         :: Ev_command_free cmd
         :: first_reply response ++ drained) (Halt o).

(** The replies to one command after the first: each packet read is
    printed and freed in the order the reads return them; the read that
    fails or yields null ends them, and the next prompt follows. *)
Inductive Drained (debug_proxy : ptr) (out : Outcome) : list Event -> Prop :=
| Drained_packet r l :
    Drained debug_proxy out l ->
    Drained debug_proxy out
      (Ev_read_response debug_proxy (IdeviceSuccess lib) (Some r)
         :: Ev_printf stdout "%s\n" [ArgStr (Some r)]
         :: Ev_string_free (Some r) :: l)
| Drained_end err response l :
    err <> IdeviceSuccess lib \/ response = None ->
    followed_by_prompt out l ->
    Drained debug_proxy out (Ev_read_response debug_proxy err response :: l)
| Drained_starved :
    out = OutOfFuel ->
    Drained debug_proxy out [].

(** What holds at each event of a round, given the events before it and
    those after it. *)

(** A line is read: the loop is left on end of file or [quit], and then
    the run ends with the cleanup; any other line is turned into a
    command. *)
Definition fgets_law (out : Outcome) (l1 : list Event)
    (got : option (list ascii)) (l2 : list Event) : Prop :=
  (leaves_shell got ->
   out = Returned 0 /\
   exists debug_proxy handshake adapter,
     l2 = cleanup debug_proxy handshake adapter /\
     In (Ev_debug_proxy_connect_rsd adapter handshake (IdeviceSuccess lib)
           debug_proxy) l1) /\
  (forall chars, got = Some chars ->
     length chars <= MAX_COMMAND_LENGTH - 1 /\
     (entered_line chars <> lit "quit" ->
      exists name argv argc cmd l3,
        l2 = Ev_command_new name argv argc cmd :: l3)).

(** A command is created: from the line just read; it is sent next,
    unless the library returned null. *)
Definition command_new_law (l1 : list Event) (name : option cstring)
    (argv : option (list (option cstring))) (argc : nat) (cmd : ptr)
    (l2 : list Event) : Prop :=
  (exists l0 chars,
     l1 = l0 ++ [Ev_fgets (Some chars)] /\
     entered_line chars <> lit "quit" /\
     command_of_line (entered_line chars) name argv argc) /\
  ((cmd = NULL /\
    exists l3, l2 = Ev_printf stderr "Failed to create command\n" [] :: l3) \/
   (cmd <> NULL /\
    exists debug_proxy err response l3,
      l2 = Ev_send_command debug_proxy cmd err response :: l3)).

(** A command is sent: it is the one just created from the line just
    read; on failure it is freed, the error is printed and the next
    prompt follows; on success it is freed and its replies are shown. *)
Definition send_law (out : Outcome) (l1 : list Event)
    (debug_proxy cmd : ptr) (err : Z) (response : option cstring)
    (l2 : list Event) : Prop :=
  (exists l0 chars name argv argc,
     l1 = l0 ++ [Ev_fgets (Some chars); Ev_command_new name argv argc cmd]) /\
  (err <> IdeviceSuccess lib ->
   exists l3,
     l2 = Ev_command_free cmd
            :: Ev_printf stderr "Command failed with error: %d\n" [ArgInt err]
            :: l3 /\
     followed_by_prompt out l3) /\
  (err = IdeviceSuccess lib ->
   exists l3,
     l2 = Ev_command_free cmd :: first_reply response ++ l3 /\
     Drained debug_proxy out l3).

Definition round_law (out : Outcome) (l1 : list Event) (e : Event)
    (l2 : list Event) : Prop :=
  match e with
  | Ev_fgets got => fgets_law out l1 got l2
  | Ev_command_new name argv argc cmd => command_new_law l1 name argv argc cmd l2
  | Ev_send_command debug_proxy cmd err response =>
      send_law out l1 debug_proxy cmd err response l2
  | _ => True
  end.

End Grammar.

(** ** A scripted library, for concrete runs

    Every call hands out a fixed handle; [errs] gives the error code of
    each setup stage (0-7), of [debug_proxy_send_command] (8) and of the
    [debug_proxy_read_response] that finds nothing left (9).  The state is
    the number of reply packets still to be read: a sent command leaves
    two. *)
Definition scripted (errs : nat -> Z) : Library nat := {|
  IdeviceSuccess := 0%Z;
  LOCKDOWN_PORT := 62078%Z;
  AF_INET := 2%Z;
  htons := fun z => z;
  inet_pton := fun _ _ => (1%Z, 167772161%Z);
  ffi_idevice_init_logger := fun w => w;
  ffi_idevice_pairing_file_read := fun _ w => (errs 0, 101%Z, w);
  ffi_idevice_pairing_file_free := fun _ w => w;
  ffi_idevice_tcp_provider_new := fun _ _ _ w => (errs 1, 102%Z, w);
  ffi_idevice_provider_free := fun _ w => w;
  ffi_core_device_proxy_connect := fun _ w => (errs 2, 103%Z, w);
  ffi_core_device_proxy_get_server_rsd_port := fun _ w => (errs 3, 58783%Z, w);
  ffi_core_device_proxy_free := fun _ w => w;
  ffi_core_device_proxy_create_tcp_adapter := fun _ w => (errs 4, 104%Z, w);
  ffi_adapter_connect := fun _ _ w => (errs 5, 105%Z, w);
  ffi_adapter_close := fun _ w => w;
  ffi_adapter_free := fun _ w => w;
  ffi_rsd_handshake_new := fun _ w => (errs 6, 106%Z, w);
  ffi_rsd_handshake_free := fun _ w => w;
  ffi_debug_proxy_connect_rsd := fun _ _ w => (errs 7, 107%Z, w);
  ffi_debug_proxy_free := fun _ w => w;
  ffi_debugserver_command_new := fun _ _ _ w => (108%Z, w);
  ffi_debugserver_command_free := fun _ w => w;
  ffi_debug_proxy_send_command := fun _ _ _ => (errs 8, Some (lit "OK"), 2);
  ffi_debug_proxy_read_response := fun _ w =>
    match w with
    | S w' => (0%Z, Some (lit "pkt"), w')
    | 0 => (errs 9, None, 0)
    end;
  ffi_idevice_string_free := fun _ w => w
|}.

(** Error codes: all calls succeed, or exactly the call numbered [i]
    fails with [code]. *)
Definition all_succeed : nat -> Z := fun _ => 0%Z.

Definition failing (i : nat) (code : Z) : nat -> Z :=
  fun j => if j =? i then code else 0%Z.

(** The command line [prog 10.0.0.1] and an input of lines. *)
Definition sample_argv : list cstring := [lit "prog"; lit "10.0.0.1"].

Definition lines (ls : list cstring) : list ascii :=
  concat (map (fun l => l ++ [newline]) ls).

Definition sample_stack : nat -> ascii := fun _ => "x"%char.

(** A run of [main] on the scripted library. *)
Definition sample_run (errs : nat -> Z) (input : list cstring) : Outcome * nat * list Event :=
  main (scripted errs) 16 sample_argv (lines input) sample_stack 0.

(** A command with sixteen arguments. *)
Definition long_line : cstring :=
  lit "c 1 2 3 4 5 6 7 8 9 10 11 12 13 14 15 16".

(** A session of one command, with every call succeeding. *)
Definition session : Outcome * nat * list Event :=
  sample_run all_succeed [lit "m 1 2"; lit "quit"].

(** The same with sixteen arguments. *)
Definition long_session : Outcome * nat * list Event :=
  sample_run all_succeed [long_line; lit "quit"].

(** A session whose command cannot be sent (error 5). *)
Definition send_failure : Outcome * nat * list Event :=
  sample_run (failing 8 5) [lit "m"; lit "quit"].

(** A session in which the read that finds nothing left fails (error 7). *)
Definition read_failure : Outcome * nat * list Event :=
  sample_run (failing 9 7) [lit "m"; lit "quit"].


(** ** The model at work *)

Example fgets_ex :
  fgets (lit "XXXXXXXX") 8 (lit "ab" ++ [newline] ++ lit "cd")
  = Some (FgetsLine (lit "ab" ++ [newline])
            (lit "ab" ++ [newline; NUL] ++ lit "XXXX") (lit "cd")).
Proof. reflexivity. Qed.

Example strtok_ex :
  strtok (Some 0) (lit " ") (lit "  ab cd" ++ [NUL], None)
  = Some (Some 2, (lit "  ab" ++ [NUL] ++ lit "cd" ++ [NUL], Some 5)).
Proof. reflexivity. Qed.

Example split_line_ex :
  option_map
    (fun r => (deref r.(arg_mem).1 r.(arg_name),
               passed (deref_all r.(arg_mem).1 r.(arg_argv)) r.(arg_argc),
               r.(arg_argc)))
    (split_line (lit "  m 10  20 " ++ [NUL] ++ lit "junk") None)
  = Some (Some (lit "m"), [Some (lit "10"); Some (lit "20")], 2).
Proof. reflexivity. Qed.

Example tokens_ex :
  tokens (lit "  m 10  20 ") = [lit "m"; lit "10"; lit "20"].
Proof. reflexivity. Qed.

(** ** The C strings of the [command] array *)

Lemma is_nul_true c : is_nul c = true <-> c = NUL.
Proof. apply Ascii.eqb_eq. Qed.

Lemma is_nul_false c : is_nul c = false <-> c <> NUL.
Proof. apply Ascii.eqb_neq. Qed.

Lemma is_nul_NUL : is_nul NUL = true.
Proof. reflexivity. Qed.

Lemma nul_notin_cons c t : NUL ∉ c :: t -> is_nul c = false /\ NUL ∉ t.
Proof.
  intros [Hn Ht]%not_elem_of_cons. split; [|done].
  apply is_nul_false. congruence.
Qed.

Lemma char_in_space c : char_in c [space] = Ascii.eqb c space.
Proof. unfold char_in; simpl. apply orb_false_r. Qed.

Lemma fields_cons_nonempty s : fields s <> [].
Proof. destruct s as [|c s]; simpl; [done|]. destruct (Ascii.eqb c space); [done|]. by destruct (fields s). Qed.

Lemma tokens_space s : tokens (space :: s) = tokens s.
Proof. unfold tokens; simpl. rewrite filter_cons_False; [done|]. by intros H; apply H. Qed.

Lemma tokens_spaces sp s : Forall (eq space) sp -> tokens (sp ++ s) = tokens s.
Proof.
  induction 1 as [|c sp <- _ IH]; simpl; [done|]. by rewrite tokens_space.
Qed.

Lemma fields_word w s :
  Forall (fun c => c <> space) w ->
  fields (w ++ space :: s) = w :: fields s.
Proof.
  induction 1 as [|c w Hc _ IH]; simpl; [done|].
  apply Ascii.eqb_neq in Hc. rewrite Hc. by rewrite IH.
Qed.

Lemma fields_word_end w :
  Forall (fun c => c <> space) w -> fields w = [w].
Proof.
  induction 1 as [|c w Hc _ IH]; simpl; [done|].
  apply Ascii.eqb_neq in Hc. rewrite Hc. by rewrite IH.
Qed.

Lemma tokens_word w s :
  w <> [] -> Forall (fun c => c <> space) w ->
  tokens (w ++ space :: s) = w :: tokens s.
Proof.
  intros Hne Hw. unfold tokens. rewrite fields_word by done.
  by rewrite filter_cons_True.
Qed.

Lemma tokens_word_end w :
  w <> [] -> Forall (fun c => c <> space) w -> tokens w = [w].
Proof.
  intros Hne Hw. unfold tokens. rewrite fields_word_end by done.
  by rewrite filter_cons_True.
Qed.

Lemma tokens_nil : tokens [] = [].
Proof. unfold tokens; simpl. by rewrite filter_cons_False by (intros H; by apply H). Qed.

(** Every string splits into leading delimiters, a word, and what
    follows the word's closing delimiter. *)
Lemma word_split (delim : cstring) (s : cstring) :
  exists sp w rest,
    s = sp ++ w ++ rest /\
    Forall (fun c => char_in c delim = true) sp /\
    Forall (fun c => char_in c delim = false) w /\
    (w = [] -> rest = []) /\
    (rest = [] \/ exists d r, rest = d :: r /\ char_in d delim = true).
Proof.
  induction s as [|c s (sp & w & rest & -> & Hsp & Hw & Hnil & Hrest)].
  - exists [], [], []. repeat split; auto.
  - destruct (char_in c delim) eqn:Hc.
    + exists (c :: sp), w, rest. repeat split; auto.
    + destruct sp as [|c' sp'].
      * exists [], (c :: w), rest. repeat split; auto. done.
      * exists [], [c], (c' :: sp' ++ w ++ rest). repeat split; auto; [done|].
        right. exists c', (sp' ++ w ++ rest). split; [done|]. by inversion Hsp.
Qed.

Lemma strspn_app sp s accept :
  Forall (fun c => char_in c accept = true) sp -> NUL ∉ sp ->
  match s with c :: _ => is_nul c = true \/ char_in c accept = false | [] => False end ->
  strspn (sp ++ s) accept = Some (length sp).
Proof.
  intros Hsp Hnul Hs. induction Hsp as [|c sp Hc _ IH]; simpl.
  - destruct s as [|c s]; [done|]. simpl. destruct (is_nul c); [done|].
    destruct Hs as [? | ->]; done.
  - apply nul_notin_cons in Hnul as [Hn Hnul].
    rewrite Hn, Hc, IH; done.
Qed.

Lemma strcspn_app w s reject :
  Forall (fun c => char_in c reject = false) w -> NUL ∉ w ->
  match s with c :: _ => is_nul c = true \/ char_in c reject = true | [] => False end ->
  strcspn (w ++ s) reject = Some (length w).
Proof.
  intros Hw Hnul Hs. induction Hw as [|c w Hc _ IH]; simpl.
  - destruct s as [|c s]; [done|]. simpl. destruct (is_nul c); [done|].
    destruct Hs as [? | ->]; done.
  - apply nul_notin_cons in Hnul as [Hn Hnul].
    rewrite Hn, Hc, IH; done.
Qed.

Lemma string_of_app t s :
  NUL ∉ t -> string_of (t ++ NUL :: s) = t.
Proof.
  induction t as [|c t IH]; intros Hn; simpl; [done|].
  apply nul_notin_cons in Hn as [Hn Hnul].
  rewrite Hn. by rewrite IH.
Qed.

Lemma cstr_at_string_of a p t : cstr_at a p t -> string_of (from a p) = t.
Proof.
  intros (pre & post & -> & <- & Hn). unfold from.
  rewrite drop_app_length. by apply string_of_app.
Qed.

(** A string is not disturbed by a change of the array beyond its
    terminator. *)
Lemma cstr_at_stable a a' p t n :
  cstr_at a p t -> p + length t <= n -> take (S n) a' = take (S n) a ->
  cstr_at a' p t.
Proof.
  intros (pre & post & -> & <- & Hn) Hle Htake.
  exists pre, (take (S n - length (pre ++ t ++ [NUL])) post ++ drop (S n) a').
  split; [|done].
  rewrite <- (take_drop (S n) a') at 1. rewrite Htake.
  replace (pre ++ t ++ NUL :: post) with ((pre ++ t ++ [NUL]) ++ post)
    by (by rewrite <- !app_assoc).
  rewrite take_app_ge by (rewrite !length_app; simpl; lia).
  by rewrite <- !app_assoc.
Qed.

Lemma lookup_after {A} (l1 l2 : list A) x l3 :
  (l1 ++ l2 ++ x :: l3) !! (length l1 + length l2) = Some x.
Proof.
  rewrite app_assoc. apply list_lookup_middle. by rewrite length_app.
Qed.

Lemma strtok_decomp pre sp w rest post delim s save :
  NUL ∉ sp -> NUL ∉ w -> NUL ∉ rest ->
  Forall (fun c => char_in c delim = true) sp ->
  Forall (fun c => char_in c delim = false) w ->
  (w = [] -> rest = []) ->
  (rest = [] \/ exists d r, rest = d :: r /\ char_in d delim = true) ->
  match s with Some p => Some p | None => save end = Some (length pre) ->
  strtok s delim (pre ++ sp ++ w ++ rest ++ NUL :: post, save) =
  Some (match w, rest with
        | [], _ =>
            (None, (pre ++ sp ++ w ++ rest ++ NUL :: post,
                    Some (length pre + length sp)))
        | _ :: _, [] =>
            (Some (length pre + length sp),
             (pre ++ sp ++ w ++ rest ++ NUL :: post,
              Some (length pre + length sp + length w)))
        | _ :: _, _ :: r =>
            (Some (length pre + length sp),
             (pre ++ sp ++ w ++ NUL :: r ++ NUL :: post,
              Some (length pre + length sp + length w + 1)))
        end).
Proof.
  intros Hsp Hw Hrest Fsp Fw Hnil Hd Hs.
  unfold strtok, from. rewrite Hs. simpl.
  rewrite drop_app_length.
  rewrite (strspn_app sp _ delim); [simpl|done|done|].
  2:{ destruct w as [|c w]; simpl.
      - rewrite (Hnil eq_refl); simpl. by left.
      - right. by inversion Fw. }
  destruct w as [|c w].
  - rewrite (Hnil eq_refl). simpl. unfold load.
    rewrite lookup_after. simpl. reflexivity.
  - unfold load. cbn [app]. rewrite lookup_after. simpl.
    apply nul_notin_cons in Hw as Hw'. destruct Hw' as [Hc Hw'].
    rewrite Hc.
    rewrite app_assoc, drop_app_length' by (by rewrite length_app).
    change (c :: w ++ rest ++ NUL :: post)
      with ((c :: w) ++ rest ++ NUL :: post).
    rewrite (strcspn_app (c :: w) _ delim); [|done|done|].
    2:{ destruct Hd as [-> | (d & r & -> & Hd)]; simpl; [by left|by right]. }
    assert (Hidx : length pre + length sp + length (c :: w)
                   = length ((pre ++ sp) ++ c :: w)).
    { rewrite !length_app. simpl. lia. }
    cbn [mbind option_bind]. rewrite Hidx.
    rewrite (app_assoc (pre ++ sp)).
    destruct rest as [|d r].
    + cbn [app]. rewrite list_lookup_middle by done.
      cbn [mbind option_bind]. rewrite is_nul_NUL.
      rewrite <- Hidx. reflexivity.
    + cbn [app]. rewrite list_lookup_middle by done.
      cbn [mbind option_bind].
      apply nul_notin_cons in Hrest as [Hdn Hr]. rewrite Hdn.
      unfold store. rewrite decide_True.
      2:{ rewrite !length_app. simpl. rewrite !length_app. simpl. lia. }
      cbn [mbind option_bind].
      rewrite insert_app_r_alt by lia. rewrite Nat.sub_diag.
      cbn [insert list_insert].
      rewrite <- Hidx.
      rewrite <- !app_assoc. cbn [app].
      reflexivity.
Qed.

(** One [strtok] step with the delimiter [" "] on an array that holds the
    string [r] at the position scanned from. *)
Lemma strtok_space a s save p0 r :
  cstr_at a p0 r ->
  match s with Some p => Some p | None => save end = Some p0 ->
  exists res a' save',
    strtok s [space] (a, save) = Some (res, (a', Some save')) /\
    length a' = length a /\
    take (S p0) a' = take (S p0) a /\
    p0 <= save' /\
    (exists r', cstr_at a' save' r' /\
       match tokens r with
       | [] => res = None /\ r' = []
       | t :: ts =>
           exists p, res = Some p /\ cstr_at a' p t /\ p0 <= p /\
                     p + length t <= save' /\ tokens r' = ts
       end).
Proof.
  intros (pre & post & -> & <- & Hn) Hs.
  destruct (word_split [space] r)
    as (sp & w & rest & -> & Fsp & Fw & Hnil & Hd).
  apply not_elem_of_app in Hn as [Hsp Hn].
  apply not_elem_of_app in Hn as [Hw Hrest].
  rewrite <- !app_assoc.
  rewrite (strtok_decomp pre sp w rest post [space] s save) by done.
  assert (Fsp' : Forall (eq space) sp).
  { eapply Forall_impl; [exact Fsp|]. intros c Hc. cbv beta in Hc. rewrite char_in_space in Hc.
    by apply Ascii.eqb_eq in Hc. }
  assert (Fw' : Forall (fun c => c <> space) w).
  { eapply Forall_impl; [exact Fw|]. intros c Hc. cbv beta in Hc. rewrite char_in_space in Hc.
    by apply Ascii.eqb_neq in Hc. }
  rewrite tokens_spaces by done.
  destruct w as [|c w].
  - rewrite (Hnil eq_refl). simpl. do 3 eexists. split; [reflexivity|].
    split; [done|]. split; [done|]. split; [lia|].
    exists []. split; [|done].
    exists (pre ++ sp), post. rewrite <- app_assoc. simpl.
    split; [done|]. split; [by rewrite length_app|]. apply not_elem_of_nil.
  - destruct rest as [|d r].
    + do 3 eexists. split; [reflexivity|].
      split; [done|]. split; [done|]. split; [lia|].
      exists []. rewrite app_nil_r.
      rewrite tokens_word_end by done. split.
      * exists (pre ++ sp ++ c :: w), post. rewrite <- !app_assoc. simpl.
        split; [done|]. split; [|apply not_elem_of_nil].
        rewrite !length_app. simpl. lia.
      * eexists. split; [reflexivity|]. split_and!; [|lia|simpl; lia|done].
        exists (pre ++ sp), post. rewrite <- !app_assoc. simpl.
        split; [done|]. split; [by rewrite length_app|done].
    + destruct Hd as [?|(d' & r' & [= <- <-] & Hd)]; [done|].
      rewrite char_in_space in Hd. apply Ascii.eqb_eq in Hd as ->.
      rewrite tokens_word by done.
      apply not_elem_of_cons in Hrest as [_ Hr].
      do 3 eexists. split; [reflexivity|].
      split; [rewrite !length_app; simpl; rewrite !length_app; simpl; lia|].
      split.
      { rewrite !take_app. rewrite (take_ge pre) by lia. f_equal.
        replace (S (length pre) - length pre) with 1 by lia.
        destruct sp as [|c0 sp]; simpl; rewrite ?take_0; done. }
      split; [lia|].
      exists r. split.
      * exists (pre ++ sp ++ (c :: w) ++ [NUL]), post.
        rewrite <- !app_assoc. simpl. rewrite <- ?app_assoc. simpl.
        split; [done|]. split; [|done].
        rewrite !length_app. simpl. rewrite ?length_app. simpl. lia.
      * eexists. split; [reflexivity|]. split_and!; [|lia|simpl; lia|done].
        exists (pre ++ sp), (r ++ NUL :: post). rewrite <- !app_assoc. simpl.
        split; [done|]. split; [by rewrite length_app|done].
Qed.

Lemma holds_stable a a' n n' po t :
  holds a n po t -> n <= n' -> take (S n) a' = take (S n) a -> holds a' n' po t.
Proof.
  intros (p & -> & Hat & Hle) Hn Htake. exists p. split; [done|]. split; [|lia].
  eapply cstr_at_stable; [exact Hat|exact Hle|done].
Qed.

Lemma take_take_eq {A} (l l' : list A) n m :
  n <= m -> take m l' = take m l -> take n l' = take n l.
Proof.
  intros Hle H.
  replace n with (n `min` m) by lia. rewrite <- !take_take. by rewrite H.
Qed.

Lemma split_arguments_spec steps :
  forall token argc argv a save done pending r,
    15 < steps + argc -> length argv = 16 -> argc <= 15 ->
    length done = argc ->
    Forall2 (holds a save) (take argc argv) done ->
    cstr_at a save r ->
    match token with
    | None => pending = []
    | Some p => exists t, pending = t :: tokens r /\ holds a save (Some p) t
    end ->
    exists argc' argv' a' save',
      split_arguments steps token argc argv (a, Some save)
      = Some (argc', argv', (a', save')) /\
      length a' = length a /\
      take (S save) a' = take (S save) a /\
      argc' = length (take 15 (done ++ pending)) /\
      length argv' = 16 /\
      Forall2 (holds a' (length a')) (take argc' argv') (take 15 (done ++ pending)).
Proof.
  induction steps as [|steps IH];
    intros token argc argv a save done pending r Hsteps Hargv Hargc Hdone Hold Hr Htok.
  { lia. }
  assert (Hfin : forall pend, length (take 15 (done ++ pend)) = argc ->
            take 15 (done ++ pend) = done).
  { intros pend Hl. rewrite length_take, length_app in Hl.
    destruct (decide (length done = 15)) as [H15|H15].
    - by rewrite take_app_length'.
    - assert (pend = []) as -> by (apply nil_length_inv; lia).
      rewrite app_nil_r. apply take_ge. lia. }
  assert (Hbound : forall po t, holds a save po t -> holds a (length a) po t).
  { intros po t (p & -> & Hat & Hle). exists p. split; [done|]. split; [done|].
    destruct Hat as (pre & post & -> & <- & _). rewrite !length_app. simpl. lia. }
  destruct token as [p|]; cbn [split_arguments].
  - destruct Htok as (t & -> & Hp).
    destruct (argc <? 15) eqn:Hlt.
    + apply Nat.ltb_lt in Hlt. change (lit " ") with [space].
      unfold store at 1. rewrite decide_True by lia. cbn [mbind option_bind].
      destruct (strtok_space a None (Some save) save r Hr eq_refl)
        as (res & a1 & save1 & Hstrtok & Hlen & Htake & Hle & r' & Hr' & Hres).
      rewrite Hstrtok. cbn [mbind option_bind].
      destruct (IH res (S argc) (<[argc := Some p]> argv) a1 save1
                  (done ++ [t]) (tokens r) r') as
        (argc' & argv' & a' & save' & Heq & Hlen' & Htake' & Hargc' & Hargv' & Hall).
      * lia.
      * by rewrite length_insert.
      * lia.
      * rewrite length_app. simpl. lia.
      * rewrite (take_S_r _ _ (Some p)).
        2:{ apply list_lookup_insert_eq. lia. }
        rewrite take_insert_ge by lia.
        apply Forall2_app.
        -- eapply Forall2_impl; [exact Hold|]. intros po d Hh.
           eapply holds_stable; [exact Hh|lia|done].
        -- constructor; [|constructor].
           eapply holds_stable; [exact Hp|lia|done].
      * done.
      * destruct (tokens r) as [|t' ts]; [by destruct Hres as [-> _]|].
        destruct Hres as (p' & -> & Hat' & Hge & Hle' & <-).
        exists t'. split; [done|]. exists p'. done.
      * exists argc', argv', a', save'. split; [exact Heq|].
        split; [congruence|]. split.
        { rewrite <- Htake. eapply take_take_eq; [|exact Htake']. lia. }
        rewrite <- app_assoc in Hargc', Hall. simpl in Hargc', Hall.
        done.
    + apply Nat.ltb_ge in Hlt. assert (argc = 15) as Hargc15 by lia.
      exists argc, argv, a, (Some save). split; [done|]. split; [done|].
      split; [done|].
      assert (Hl : length (take 15 (done ++ t :: tokens r)) = argc).
      { rewrite length_take, length_app. cbn [length]. lia. }
      split; [by rewrite Hl|]. split; [done|].
      rewrite (Hfin _ Hl). eapply Forall2_impl; [exact Hold|]. exact Hbound.
  - subst pending. rewrite app_nil_r.
    exists argc, argv, a, (Some save). split; [done|]. split; [done|].
    split; [done|].
    rewrite take_ge by lia. split; [done|]. split; [done|].
    eapply Forall2_impl; [exact Hold|]. exact Hbound.
Qed.

Lemma strtok_empty a save r :
  cstr_at a save r ->
  strtok None [] (a, Some save)
  = Some (match r with [] => None | _ :: _ => Some save end,
          (a, Some (save + length r))).
Proof.
  intros (pre & post & -> & <- & Hn).
  pose proof (strtok_decomp pre [] r [] post [] None (Some (length pre))) as H.
  cbn [app] in H. rewrite H; clear H; try done.
  - destruct r; cbn [length]; rewrite ?Nat.add_0_r; done.
  - apply not_elem_of_nil.
  - apply not_elem_of_nil.
  - by apply Forall_forall.
  - by left.
Qed.

Lemma cstr_at_load a p c r : cstr_at a p (c :: r) -> load a p = Some c /\ is_nul c = false.
Proof.
  intros (pre & post & -> & <- & Hn). split.
  - unfold load. by apply list_lookup_middle.
  - by apply nul_notin_cons in Hn as [? _].
Qed.

Lemma holds_deref a n l ds :
  Forall2 (holds a n) l ds -> map (deref a) l = map Some ds.
Proof.
  induction 1 as [|po d l ds (p & -> & Hat & _) _ IH]; simpl; [done|].
  rewrite (cstr_at_string_of _ _ _ Hat). by rewrite IH.
Qed.

(** What [split_line] hands to [debugserver_command_new], for an array
    that holds the line [line]: the first token as the name and the
    first fifteen of the following tokens as the arguments. *)
Lemma split_line_spec command save line :
  cstr_at command 0 line ->
  exists r,
    split_line command save = Some r /\
    length r.(arg_mem).1 = length command /\
    deref r.(arg_mem).1 r.(arg_name) = head (tokens line) /\
    passed (deref_all r.(arg_mem).1 r.(arg_argv)) r.(arg_argc) = map Some (take 15 (tail (tokens line))) /\
    r.(arg_argc) = length (take 15 (tail (tokens line))) /\
    r.(arg_argc) <= 15.
Proof.
  intros Hline. unfold split_line. change (lit " ") with [space].
  change (lit "") with (@nil ascii).
  destruct (strtok_space command (Some 0) save 0 line Hline eq_refl)
    as (res & a1 & save1 & -> & Hlen1 & Htake1 & _ & r1 & Hr1 & Hres).
  cbn [mbind option_bind]. rewrite (strtok_empty a1 save1 r1 Hr1).
  cbn [mbind option_bind fst].
  assert (Hname : forall p n a', cstr_at a1 p n -> p + length n <= save1 ->
            take (S save1) a' = take (S save1) a1 ->
            deref a' (Some p) = Some n).
  { intros p n a' Hat Hle Ht. simpl. f_equal. apply cstr_at_string_of.
    eapply cstr_at_stable; [exact Hat|exact Hle|exact Ht]. }
  destruct r1 as [|c r1].
  - (* nothing after the name *)
    cbn [has_arguments mbind option_bind].
    eexists. split; [reflexivity|]. cbn. split; [done|].
    destruct (tokens line) as [|n ts].
    + destruct Hres as [-> _]. simpl. split_and!; [done|done|done|lia].
    + destruct Hres as (p & -> & Hat & _ & Hle & <-).
      rewrite (Hname p n a1) by done. rewrite tokens_nil. simpl.
      split_and!; [done|done|done|lia].
  - destruct (cstr_at_load _ _ _ _ Hr1) as [Hload Hc].
    cbn [has_arguments mbind option_bind]. rewrite Hload.
    cbn [mbind option_bind]. rewrite Hc. cbn [negb].
    destruct (strtok_space a1 (Some save1) (Some (save1 + length (c :: r1)))
                save1 (c :: r1) Hr1 eq_refl)
      as (res3 & a3 & save3 & -> & Hlen3 & Htake3 & Hle3 & r3 & Hr3 & Hres3).
    cbn [mbind option_bind].
    destruct (tokens line) as [|n ts].
    { by destruct Hres as [_ ?]. }
    destruct Hres as (p & -> & Hat & _ & Hle & Hts).
    destruct (split_arguments_spec 16 res3 0 (replicate 16 None) a3 save3 []
                (tokens (c :: r1)) r3)
      as (argc' & argv' & a' & save' & -> & Hlen' & Htake' & Hargc' & Hargv' & Hall).
    + lia.
    + by rewrite length_replicate.
    + lia.
    + done.
    + constructor.
    + done.
    + destruct (tokens (c :: r1)) as [|t ts'].
      * by destruct Hres3 as [-> _].
      * destruct Hres3 as (p3 & -> & Hat3 & _ & Hle3' & <-).
        exists t. split; [done|]. exists p3. done.
    + cbn [mbind option_bind]. eexists. split; [reflexivity|].
      cbn [arg_mem arg_name arg_argv arg_argc fst app] in *.
      split; [congruence|]. split.
      { apply (Hname p n a'); [done|done|].
        rewrite <- Htake3. eapply take_take_eq; [|exact Htake']. lia. }
      cbn [head tail]. rewrite <- Hts. split; [|split; [done|]].
      * unfold passed. cbn [arg_mem arg_argv arg_argc fst deref_all option_map].
        rewrite firstn_map. by apply holds_deref in Hall.
      * rewrite Hargc', length_take. lia.
Qed.

Lemma entered_line_length chars : length (entered_line chars) <= length chars.
Proof.
  induction chars as [|c l IH]; simpl; [lia|].
  destruct (is_nul c || Ascii.eqb c newline); simpl; lia.
Qed.

Lemma entered_line_clean chars :
  (NUL ∉ entered_line chars) /\ (newline ∉ entered_line chars).
Proof.
  induction chars as [|c l [IH1 IH2]]; simpl.
  - split; apply not_elem_of_nil.
  - destruct (is_nul c || Ascii.eqb c newline) eqn:E.
    + split; apply not_elem_of_nil.
    + apply orb_false_iff in E as [E1 E2].
      apply is_nul_false in E1. apply Ascii.eqb_neq in E2.
      split; apply not_elem_of_cons; (split; [congruence|done]).
Qed.

Lemma fgets_read_length n input :
  length (fgets_read n input).1 <= n.
Proof.
  revert input. induction n as [|n IH]; intros [|c rest]; simpl; try lia.
  destruct (Ascii.eqb c newline); simpl; [lia|].
  specialize (IH rest). destruct (fgets_read n rest). simpl in *. lia.
Qed.

Lemma fgets_read_app n input :
  (fgets_read n input).1 ++ (fgets_read n input).2 = input.
Proof.
  revert input. induction n as [|n IH]; intros [|c rest]; simpl; try done.
  destruct (Ascii.eqb c newline); simpl; [done|].
  specialize (IH rest). destruct (fgets_read n rest). simpl in *. by f_equal.
Qed.

Lemma fgets_read_nil n input :
  (fgets_read (S n) input).1 = [] -> input = [].
Proof.
  destruct input as [|c rest]; simpl; [done|].
  destruct (Ascii.eqb c newline); simpl; [done|].
  by destruct (fgets_read n rest).
Qed.

Lemma store_all_spec l : forall a i,
  i + length l <= length a ->
  store_all a i l = Some (take i a ++ l ++ drop (i + length l) a).
Proof.
  induction l as [|c l IH]; intros a i Hle; simpl.
  - by rewrite Nat.add_0_r, take_drop.
  - simpl in Hle. unfold store. rewrite decide_True by lia. simpl.
    rewrite IH by (rewrite length_insert; lia). f_equal.
    rewrite (take_S_r _ _ c) by (apply list_lookup_insert_eq; lia).
    rewrite take_insert_ge by lia. rewrite drop_insert_lt by lia.
    rewrite <- app_assoc. cbn [app]. do 4 f_equal. lia.
Qed.

(** [fgets] into the [command] array never writes outside it and leaves
    the characters read, then a terminator. *)
Lemma fgets_spec buf input :
  length buf = MAX_COMMAND_LENGTH ->
  fgets buf MAX_COMMAND_LENGTH input = Some FgetsNull /\ input = [] \/
  exists chars rest post,
    fgets buf MAX_COMMAND_LENGTH input
    = Some (FgetsLine chars (chars ++ NUL :: post) rest) /\
    chars <> [] /\ input = chars ++ rest /\
    length chars <= MAX_COMMAND_LENGTH - 1 /\
    length (chars ++ NUL :: post) = MAX_COMMAND_LENGTH.
Proof.
  intros Hlen. unfold fgets.
  pose proof (fgets_read_length (MAX_COMMAND_LENGTH - 1) input) as Hl.
  pose proof (fgets_read_app (MAX_COMMAND_LENGTH - 1) input) as Happ.
  pose proof (fgets_read_nil (MAX_COMMAND_LENGTH - 2) input) as Hnil.
  change (S (MAX_COMMAND_LENGTH - 2)) with (MAX_COMMAND_LENGTH - 1) in Hnil.
  destruct (fgets_read (MAX_COMMAND_LENGTH - 1) input) as [chars rest].
  cbn [fst snd] in *.
  destruct chars as [|c chars].
  - left. split; [done|]. by apply Hnil.
  - right. exists (c :: chars), rest,
      (drop (length ((c :: chars) ++ [NUL])) buf).
    rewrite store_all_spec.
    2:{ rewrite length_app. cbn [length] in *. lia. }
    cbn [mbind option_bind take]. rewrite <- !app_assoc. cbn [app].
    split; [done|]. split; [done|]. split; [done|]. split; [done|].
    cbn [length] in *. rewrite length_app. cbn [length].
    rewrite length_drop, length_app. cbn [length]. lia.
Qed.

(** Removing the newline: line 153. *)
Lemma strip_newline_spec chars post :
  exists command',
    strcspn (chars ++ NUL :: post) [newline] = Some (length (entered_line chars)) /\
    store (chars ++ NUL :: post) (length (entered_line chars)) NUL = Some command' /\
    length command' = length (chars ++ NUL :: post) /\
    cstr_at command' 0 (entered_line chars).
Proof.
  induction chars as [|c l (cmd & Hspn & Hst & Hlen & Hat)]; simpl.
  - exists (NUL :: post). split; [done|]. split; [done|]. split; [done|].
    exists [], post. split; [done|]. split; [done|]. apply not_elem_of_nil.
  - destruct (is_nul c) eqn:Hc; simpl.
    + exists (NUL :: l ++ NUL :: post). split; [done|]. split; [done|].
      split; [done|].
      exists [], (l ++ NUL :: post). split; [done|]. split; [done|].
      apply not_elem_of_nil.
    + rewrite orb_false_r. destruct (Ascii.eqb c newline) eqn:Hnl; simpl.
      * exists (NUL :: l ++ NUL :: post). split; [done|]. split; [done|].
        split; [done|].
        exists [], (l ++ NUL :: post). split; [done|]. split; [done|].
        apply not_elem_of_nil.
      * rewrite Hspn. simpl. exists (c :: cmd).
        split; [done|]. split.
        { unfold store in *. simpl. case_decide as Hd; [|done].
          rewrite decide_True by lia. by injection Hst as <-. }
        split; [simpl; by rewrite Hlen|].
        destruct Hat as (pre & post' & -> & Hpre & Hn).
        apply nil_length_inv in Hpre as ->.
        exists [], post'. split; [done|]. split; [done|].
        apply not_elem_of_cons. split; [|done].
        apply is_nul_false in Hc. congruence.
Qed.

Lemma nat_of_ascii_inj c1 c2 : nat_of_ascii c1 = nat_of_ascii c2 -> c1 = c2.
Proof.
  intros H. rewrite <- (ascii_nat_embedding c1), <- (ascii_nat_embedding c2).
  by rewrite H.
Qed.

(** [strcmp] against a literal: zero exactly when the string is the
    literal. *)
Lemma strcmp_spec line post literal :
  NUL ∉ line -> NUL ∉ literal ->
  exists z, strcmp (line ++ NUL :: post) (literal ++ [NUL]) = Some z /\
            (z = 0%Z <-> line = literal).
Proof.
  revert literal. induction line as [|c l IH]; intros [|d k] Hl Hk;
    cbn [strcmp app].
  - rewrite Ascii.eqb_refl, is_nul_NUL. exists 0%Z. done.
  - apply nul_notin_cons in Hk as [Hd Hk].
    rewrite Ascii.eqb_sym. change (Ascii.eqb d NUL) with (is_nul d). rewrite Hd.
    eexists. split; [done|]. split; [|done].
    apply is_nul_false in Hd. intros Hz.
    destruct Hd. apply nat_of_ascii_inj. lia.
  - apply nul_notin_cons in Hl as [Hc Hl].
    change (Ascii.eqb c NUL) with (is_nul c). rewrite Hc.
    eexists. split; [done|]. split; [|done].
    apply is_nul_false in Hc. intros Hz.
    destruct Hc. apply nat_of_ascii_inj. lia.
  - apply nul_notin_cons in Hl as [Hc Hl]. apply nul_notin_cons in Hk as [Hd Hk].
    destruct (Ascii.eqb c d) eqn:Hcd.
    + apply Ascii.eqb_eq in Hcd as <-. rewrite Hc.
      destruct (IH k Hl Hk) as (z & -> & Hz). exists z. split; [done|].
      rewrite Hz. split; [by intros ->|by intros [= ->]].
    + eexists. split; [done|]. apply Ascii.eqb_neq in Hcd.
      split; [|by intros [= -> ->]].
      intros Hz. destruct Hcd. apply nat_of_ascii_inj. lia.
Qed.

(** ** The shape of the shell's traces *)

Section GrammarFacts.

Context {W : Type} (lib : Library W).

Lemma failed_false err : failed lib err = false <-> err = IdeviceSuccess lib.
Proof.
  unfold failed. rewrite negb_false_iff. apply Z.eqb_eq.
Qed.

Ltac run_in H :=
  unfold debugserver_command_new, debug_proxy_send_command,
    debugserver_command_free, debug_proxy_read_response,
    idevice_string_free, printf, fprintf, fflush in H;
  unfold bind, emit, call, call_void, ret in H.

Lemma read_responses_grammar fuel debug_proxy : forall w fl w' tr,
  read_responses lib fuel debug_proxy w = (fl, w', tr) ->
  Drain lib debug_proxy tr fl.
Proof.
  induction fuel as [|fuel IH]; intros w fl w' tr H; cbn [read_responses] in H;
    run_in H.
  { injection H as <- _ <-. constructor. }
  destruct (ffi_debug_proxy_read_response W lib debug_proxy w)
    as [[err response] w1].
  cbn [fst snd] in H.
  destruct (failed lib err) eqn:Herr; cbn in H.
  { injection H as <- _ <-. constructor. by left. }
  destruct response as [r|]; cbn in H.
  2:{ injection H as <- _ <-. constructor. by right. }
  destruct (read_responses lib fuel debug_proxy _) as [[fl1 w2] tr1] eqn:Hrec.
  injection H as <- _ <-. constructor; [done|]. by eapply IH.
Qed.

Lemma quit_clean : NUL ∉ lit "quit".
Proof.
  intros H. cbn in H.
  repeat (apply elem_of_cons in H as [H|H]; [discriminate|]).
  by apply elem_of_nil in H.
Qed.

Lemma shell_stopped fuel debug_proxy stdin command save w :
  shell lib fuel debug_proxy false stdin command save w = (Next, w, []).
Proof. by destruct fuel. Qed.

Local Opaque fgets strcspn store strcmp split_line MAX_COMMAND_LENGTH.

Lemma shell_grammar fuel : forall debug_proxy stdin command save w fl w' tr,
  length command = MAX_COMMAND_LENGTH ->
  shell lib fuel debug_proxy true stdin command save w = (fl, w', tr) ->
  Shell lib debug_proxy tr fl.
Proof.
  induction fuel as [|fuel IH];
    intros debug_proxy stdin command save w fl w' tr Hlen H;
    cbn [shell negb] in H; run_in H.
  { injection H as <- _ <-. constructor. }
  destruct (fgets_spec command stdin Hlen)
    as [[Hf ->] | (chars & rest & post & Hf & Hne & -> & Hchars & Hlen1)];
    rewrite Hf in H; clear Hf.
  { injection H as <- _ <-. apply Shell_eof. }
  destruct (strip_newline_spec chars post) as (command1 & Hs1 & Hs2 & Hlen2 & Hat).
  rewrite Hs1, Hs2 in H. clear Hs1 Hs2.
  pose proof Hat as (pre & post1 & Hcmd & Hpre & Hnul).
  apply nil_length_inv in Hpre as ->. cbn [app] in Hcmd.
  destruct (strcmp_spec (entered_line chars) post1 (lit "quit") Hnul quit_clean)
    as (z & Hz & Hquit).
  rewrite <- Hcmd in Hz. rewrite Hz in H. clear Hz.
  destruct (z =? 0)%Z eqn:Hz0.
  { apply Z.eqb_eq in Hz0. rewrite shell_stopped in H.
    injection H as <- _ <-.
    apply Shell_quit; [done|]. by apply Hquit. }
  apply Z.eqb_neq in Hz0.
  destruct (split_line_spec command1 save _ Hat)
    as (r & Hsl & Hlen3 & Hname & Hargs & Hargc & _).
  rewrite Hsl in H. clear Hsl.
  destruct (arg_mem r) as [command2 save2] eqn:Hmem. cbn [fst] in *.
  assert (Hline : command_of_line (entered_line chars)
            (deref command2 (arg_name r)) (deref_all command2 (arg_argv r))
            (arg_argc r)).
  { split; [done|]. split; [|done].
    exact Hargs. }
  assert (Hnq : entered_line chars <> lit "quit") by (rewrite <- Hquit; done).
  assert (Hlen4 : length command2 = MAX_COMMAND_LENGTH) by congruence.
  destruct (ffi_debugserver_command_new W lib _ _ _ w) as [cmd w1].
  destruct (cmd =? NULL)%Z eqn:Hcmdnull.
  { apply Z.eqb_eq in Hcmdnull. subst cmd.
    destruct (shell lib fuel debug_proxy true rest command2 save2 w1)
      as [[fl1 w2] tr1] eqn:Hrec.
    injection H as <- _ <-.
    apply Shell_no_command; try done. by eapply IH. }
  apply Z.eqb_neq in Hcmdnull.
  destruct (ffi_debug_proxy_send_command W lib debug_proxy cmd w1)
    as [[err response] w2].
  cbn [fst snd] in H.
  destruct (failed lib err) eqn:Herr.
  { destruct (shell lib fuel debug_proxy true rest command2 save2 _)
      as [[fl1 w3] tr1] eqn:Hrec.
    injection H as <- _ <-.
    apply Shell_send_failed; try done. by eapply IH. }
  assert (Hreply : first_reply response
                   = if bool_decide (is_Some response)
                     then [Ev_printf stdout "%s\n" [ArgStr response];
                           Ev_string_free response]
                     else [Ev_printf stdout "(no response)\n" []]) by done.
  destruct response as [pkt|]; simpl in H, Hreply.
  - destruct (read_responses lib fuel debug_proxy _) as [[dfl w5] dtr] eqn:Hdrain.
    apply read_responses_grammar in Hdrain.
    destruct dfl as [|o].
    + destruct (shell lib fuel debug_proxy true rest command2 save2 w5)
        as [[fl1 w6] tr1] eqn:Hrec.
      injection H as <- _ <-.
      apply (Shell_sent lib _ chars _ _ _ cmd err (Some pkt) dtr tr1 fl1); try done.
      by eapply IH.
    + injection H as <- _ <-. rewrite app_nil_r.
      by apply (Shell_sent_starved lib _ chars _ _ _ cmd err (Some pkt) dtr o).
  - destruct (read_responses lib fuel debug_proxy _) as [[dfl w5] dtr] eqn:Hdrain.
    apply read_responses_grammar in Hdrain.
    destruct dfl as [|o].
    + destruct (shell lib fuel debug_proxy true rest command2 save2 w5)
        as [[fl1 w6] tr1] eqn:Hrec.
      injection H as <- _ <-.
      apply (Shell_sent lib _ chars _ _ _ cmd err None dtr tr1 fl1); try done.
      by eapply IH.
    + injection H as <- _ <-. rewrite app_nil_r.
      by apply (Shell_sent_starved lib _ chars _ _ _ cmd err None dtr o).
Qed.

End GrammarFacts.

(** ** Termination

    The model's loops take fuel.  On a finite input, and when every drain
    of the library ends, enough fuel lets the shell be left and [main]
    return. *)

Section Termination.

Context {W : Type} (lib : Library W).

Ltac run_in H :=
  unfold debugserver_command_new, debug_proxy_send_command,
    debugserver_command_free, debug_proxy_read_response,
    idevice_string_free, printf, fprintf, fflush in H;
  unfold bind, emit, call, call_void, ret in H.

Ltac run :=
  unfold debugserver_command_new, debug_proxy_send_command,
    debugserver_command_free, debug_proxy_read_response,
    idevice_string_free, printf, fprintf, fflush;
  unfold bind, emit, call, call_void, ret.

(** More fuel does not change a loop that ended. *)
Lemma read_responses_mono n : forall debug_proxy w w' tr,
  read_responses lib n debug_proxy w = (Next, w', tr) ->
  forall m, n <= m -> read_responses lib m debug_proxy w = (Next, w', tr).
Proof.
  induction n as [|n IH]; intros dp w w' tr H m Hm.
  { discriminate H. }
  destruct m as [|m]; [lia|].
  cbn [read_responses] in *. run_in H. run.
  destruct (ffi_debug_proxy_read_response W lib dp w) as [[err response] w1].
  cbn [fst snd] in *.
  destruct (failed lib err || negb (bool_decide (is_Some response))); [done|].
  destruct (read_responses lib n dp _) as [[fl w2] tr2] eqn:Hrec.
  destruct fl; [|discriminate H].
  rewrite (IH _ _ _ _ Hrec m) by lia. done.
Qed.

Local Opaque fgets strcspn store strcmp split_line MAX_COMMAND_LENGTH.

Lemma shell_mono n : forall debug_proxy running stdin command save w w' tr,
  shell lib n debug_proxy running stdin command save w = (Next, w', tr) ->
  forall m, n <= m ->
  shell lib m debug_proxy running stdin command save w = (Next, w', tr).
Proof.
  induction n as [|n IH]; intros dp running stdin command save w w' tr H m Hm.
  { destruct running; [discriminate H|]. by rewrite shell_stopped in *. }
  destruct running; [|by rewrite shell_stopped in *].
  destruct m as [|m]; [lia|].
  cbn [shell negb] in *. run_in H. run.
  destruct (fgets command MAX_COMMAND_LENGTH stdin) as [[|chars command1 rest]|];
    [done| |discriminate H].
  destruct (strcspn command1 [newline]) as [k|]; [|discriminate H].
  destruct (store command1 k NUL) as [command2|]; [|discriminate H].
  destruct (strcmp command2 (lit "quit" ++ [NUL])) as [z|]; [|discriminate H].
  destruct (z =? 0)%Z.
  { rewrite shell_stopped in *. done. }
  destruct (split_line command2 save) as [r|]; [|discriminate H].
  destruct (arg_mem r) as [command3 save3].
  destruct (ffi_debugserver_command_new W lib _ _ _ w) as [cmd w1].
  destruct (cmd =? NULL)%Z.
  { destruct (shell lib n dp true rest command3 save3 w1) as [[fl w2] tr2] eqn:Hrec.
    destruct fl; [|discriminate H].
    rewrite (IH _ _ _ _ _ _ _ _ Hrec m) by lia. done. }
  destruct (ffi_debug_proxy_send_command W lib dp cmd w1) as [[err response] w2].
  cbn [fst snd] in *.
  destruct (failed lib err).
  { destruct (shell lib n dp true rest command3 save3 _) as [[fl w3] tr3] eqn:Hrec.
    destruct fl; [|discriminate H].
    rewrite (IH _ _ _ _ _ _ _ _ Hrec m) by lia. done. }
  destruct (bool_decide (is_Some response)).
  - destruct (read_responses lib n dp _) as [[dfl w4] dtr] eqn:Hd.
    destruct dfl; [|discriminate H].
    rewrite (read_responses_mono _ _ _ _ _ Hd m) by lia.
    destruct (shell lib n dp true rest command3 save3 w4) as [[fl w5] tr5] eqn:Hrec.
    destruct fl; [|discriminate H].
    rewrite (IH _ _ _ _ _ _ _ _ Hrec m) by lia. done.
  - destruct (read_responses lib n dp _) as [[dfl w4] dtr] eqn:Hd.
    destruct dfl; [|discriminate H].
    rewrite (read_responses_mono _ _ _ _ _ Hd m) by lia.
    destruct (shell lib n dp true rest command3 save3 w4) as [[fl w5] tr5] eqn:Hrec.
    destruct fl; [|discriminate H].
    rewrite (IH _ _ _ _ _ _ _ _ Hrec m) by lia. done.
Qed.

Ltac step H := rewrite H; cbv beta iota zeta.

(** On a finite input the shell is left, given enough fuel, when every
    drain ends. *)
Lemma shell_terminates :
  drains_end lib ->
  forall n stdin, length stdin <= n ->
  forall debug_proxy command save w,
    length command = MAX_COMMAND_LENGTH ->
    exists fuel w' tr,
      shell lib fuel debug_proxy true stdin command save w = (Next, w', tr).
Proof.
  intros Hdrain. induction n as [|n IH]; intros stdin Hn dp command save w Hlen.
  all: destruct (fgets_spec command stdin Hlen)
    as [[Hf ->] | (chars & rest & post & Hf & Hne & -> & Hchars & Hlen1)].
  all: try (exists 1; cbn [shell negb]; run; rewrite Hf; by do 2 eexists).
  { rewrite length_app in Hn. destruct chars; [done|]. cbn [length] in Hn. lia. }
  assert (Hrest : length rest <= n).
  { rewrite length_app in Hn. destruct chars; [done|]. cbn [length] in Hn. lia. }
  destruct (strip_newline_spec chars post) as (command1 & Hs1 & Hs2 & Hlen2 & Hat).
  pose proof Hat as (pre & post1 & Hcmd & Hpre & Hnul).
  apply nil_length_inv in Hpre as ->. cbn [app] in Hcmd.
  destruct (strcmp_spec (entered_line chars) post1 (lit "quit") Hnul quit_clean)
    as (z & Hz & _).
  rewrite <- Hcmd in Hz.
  destruct (z =? 0)%Z eqn:Hz0.
  { exists 1. cbn [shell negb]. run.
    step Hf. step Hs1. step Hs2. step Hz. step Hz0. by do 2 eexists. }
  destruct (split_line_spec command1 save _ Hat) as (r & Hsl & Hlen3 & _).
  destruct (arg_mem r) as [command2 save2] eqn:Hmem. cbn [fst] in Hlen3.
  assert (Hlen4 : length command2 = MAX_COMMAND_LENGTH) by congruence.
  destruct (ffi_debugserver_command_new W lib (deref command2 (arg_name r))
              (deref_all command2 (arg_argv r)) (arg_argc r) w)
    as [cmd w1] eqn:Hnew.
  destruct (cmd =? NULL)%Z eqn:Hnull.
  { destruct (IH rest Hrest dp command2 save2 w1 Hlen4) as (n2 & w' & tr & Hrec).
    exists (S n2). cbn [shell negb]. run.
    step Hf. step Hs1. step Hs2. step Hz. step Hz0. step Hsl. step Hmem.
    step Hnew. step Hnull. step Hrec. by do 2 eexists. }
  destruct (ffi_debug_proxy_send_command W lib dp cmd w1)
    as [[err response] w2] eqn:Hsend.
  destruct (failed lib err) eqn:Herr.
  { destruct (IH rest Hrest dp command2 save2
                (ffi_debugserver_command_free W lib cmd w2) Hlen4)
      as (n2 & w' & tr & Hrec).
    exists (S n2). cbn [shell negb]. run.
    step Hf. step Hs1. step Hs2. step Hz. step Hz0. step Hsl. step Hmem.
    step Hnew. step Hnull. step Hsend. cbn [fst snd]. step Herr. step Hrec.
    by do 2 eexists. }
  set (w3 := ffi_debugserver_command_free W lib cmd w2).
  set (w4 := if bool_decide (is_Some response)
             then ffi_idevice_string_free W lib response w3 else w3).
  destruct (Hdrain dp w4) as (n1 & w5 & dtr & Hd).
  destruct (IH rest Hrest dp command2 save2 w5 Hlen4) as (n2 & w' & tr & Hrec).
  exists (S (n1 `max` n2)). cbn [shell negb]. run.
  step Hf. step Hs1. step Hs2. step Hz. step Hz0. step Hsl. step Hmem.
  step Hnew. step Hnull. step Hsend. cbn [fst snd]. step Herr.
  subst w4 w3.
  destruct (bool_decide (is_Some response)); cbv beta iota zeta.
  - rewrite (read_responses_mono _ _ _ _ _ Hd (n1 `max` n2)) by lia.
    cbv beta iota zeta.
    rewrite (shell_mono _ _ _ _ _ _ _ _ _ Hrec (n1 `max` n2)) by lia.
    by do 2 eexists.
  - rewrite (read_responses_mono _ _ _ _ _ Hd (n1 `max` n2)) by lia.
    cbv beta iota zeta.
    rewrite (shell_mono _ _ _ _ _ _ _ _ _ Hrec (n1 `max` n2)) by lia.
    by do 2 eexists.
Qed.

End Termination.

Section Returns.

Context {W : Type} (lib : Library W).

Local Opaque MAX_COMMAND_LENGTH.

Ltac unfold_calls_goal :=
  unfold print_usage, idevice_init_logger, idevice_pairing_file_read,
    idevice_pairing_file_free, idevice_tcp_provider_new, idevice_provider_free,
    core_device_proxy_connect, core_device_proxy_get_server_rsd_port,
    core_device_proxy_free, core_device_proxy_create_tcp_adapter,
    adapter_connect, adapter_close, adapter_free, rsd_handshake_new,
    rsd_handshake_free, debug_proxy_connect_rsd, debug_proxy_free,
    printf, fprintf, fflush;
  unfold bind, emit, call, call_void, ret.

(** The setup does not depend on the fuel: either it fails, and [main]
    returns 1, or it reaches the shell with a debug proxy and an outside
    state that are the same for every fuel. *)
Lemma main_shell argv stdin stack w :
  (forall fuel, outcome_of (main lib fuel argv stdin stack w) = Returned 1) \/
  exists debug_proxy w1, forall fuel,
    outcome_of (main lib fuel argv stdin stack w) =
    match (shell lib fuel debug_proxy true stdin
             (map stack (seq 0 MAX_COMMAND_LENGTH)) None w1).1.1 with
    | Next => Returned 0
    | Halt o => o
    end.
Proof.
  unfold main, outcome_of. unfold_calls_goal. cbn [fst snd].
  repeat first
    [ progress cbn [fst snd negb]
    | match goal with
      | |- context [inet_pton ?l ?f ?s] =>
          destruct (inet_pton l f s) as [? ?]
      | |- context [ffi_idevice_pairing_file_read ?W ?l ?a ?w] =>
          destruct (ffi_idevice_pairing_file_read W l a w) as [[? ?] ?]
      | |- context [ffi_idevice_tcp_provider_new ?W ?l ?a ?b ?c ?w] =>
          destruct (ffi_idevice_tcp_provider_new W l a b c w) as [[? ?] ?]
      | |- context [ffi_core_device_proxy_connect ?W ?l ?a ?w] =>
          destruct (ffi_core_device_proxy_connect W l a w) as [[? ?] ?]
      | |- context [ffi_core_device_proxy_get_server_rsd_port ?W ?l ?a ?w] =>
          destruct (ffi_core_device_proxy_get_server_rsd_port W l a w)
            as [[? ?] ?]
      | |- context [ffi_core_device_proxy_create_tcp_adapter ?W ?l ?a ?w] =>
          destruct (ffi_core_device_proxy_create_tcp_adapter W l a w)
            as [[? ?] ?]
      | |- context [ffi_adapter_connect ?W ?l ?a ?b ?w] =>
          destruct (ffi_adapter_connect W l a b w) as [[? ?] ?]
      | |- context [ffi_rsd_handshake_new ?W ?l ?a ?w] =>
          destruct (ffi_rsd_handshake_new W l a w) as [[? ?] ?]
      | |- context [ffi_debug_proxy_connect_rsd ?W ?l ?a ?b ?w] =>
          destruct (ffi_debug_proxy_connect_rsd W l a b w)
            as [[? shell_proxy] shell_state]
      | |- context [if negb ?c then _ else _] =>
          destruct c; [|by left]
      | |- context [if ?c then _ else _] =>
          destruct c; [by left|]
      end ].
  right. exists shell_proxy, shell_state. intros fuel.
  by destruct (shell _ _ _ _ _ _ _ _) as [[[] ?] ?].
Qed.

(** With enough fuel [main] returns, 0 or 1, on every finite input when
    every drain ends. *)
Lemma main_returns argv stdin stack w :
  drains_end lib ->
  exists fuel,
    outcome_of (main lib fuel argv stdin stack w) = Returned 0 \/
    outcome_of (main lib fuel argv stdin stack w) = Returned 1.
Proof.
  intros Hdrain. destruct (main_shell argv stdin stack w) as [H | (dp & w1 & H)].
  { exists 0. right. apply H. }
  destruct (shell_terminates lib Hdrain (length stdin) stdin (le_n _) dp
              (map stack (seq 0 MAX_COMMAND_LENGTH)) None w1)
    as (fuel & w' & tr & Hs).
  { by rewrite length_map, length_seq. }
  exists fuel. left. by rewrite H, Hs.
Qed.

End Returns.

(** ** Reasoning about the events of a trace *)

Lemma each_split_spec P tr : forall pre,
  each_split P pre tr ->
  forall l1 e l2, tr = l1 ++ e :: l2 -> P (pre ++ l1) e l2.
Proof.
  induction tr as [|x tr IH]; intros pre H l1 e l2 Heq.
  - by destruct l1.
  - destruct H as [Hx Htr]. destruct l1 as [|y l1]; simplify_eq/=.
    + by rewrite app_nil_r.
    + specialize (IH _ Htr l1 e l2 eq_refl). by rewrite <- app_assoc in IH.
Qed.

Lemma each_split_app P a : forall pre b,
  each_split (fun l1 e l2 => P l1 e (l2 ++ b)) pre a ->
  each_split P (pre ++ a) b ->
  each_split P pre (a ++ b).
Proof.
  induction a as [|x a IH]; intros pre b Ha Hb; simpl.
  - by rewrite app_nil_r in Hb.
  - destruct Ha as [Hx Ha]. split; [done|]. apply IH; [done|].
    by rewrite <- app_assoc.
Qed.

Lemma each_split_Forall (R : Event -> Prop) P tr : forall pre,
  Forall R tr -> (forall l1 e l2, R e -> P l1 e l2) -> each_split P pre tr.
Proof.
  induction tr as [|x tr IH]; intros pre HR HP; simpl; [done|].
  inversion HR; subst. split; [by apply HP|]. by apply IH.
Qed.

Lemma each_split_impl (P Q : list Event -> Event -> list Event -> Prop) tr :
  forall pre,
  (forall l1 e l2, P l1 e l2 -> Q l1 e l2) ->
  each_split P pre tr -> each_split Q pre tr.
Proof.
  induction tr as [|x tr IH]; intros pre HPQ H; simpl; [done|].
  destruct H as [Hx H]. split; [by apply HPQ|]. by apply IH.
Qed.

Lemma each_split_and_Forall (R : Event -> Prop) P tr : forall pre,
  Forall R tr -> each_split P pre tr ->
  each_split (fun l1 e l2 => R e /\ P l1 e l2) pre tr.
Proof.
  induction tr as [|x tr IH]; intros pre HR HP; simpl; [done|].
  inversion HR; subst. destruct HP as [Hx HP]. split; [done|]. by apply IH.
Qed.

Section ShellFacts.

Context {W : Type} (lib : Library W).

Lemma first_reply_events response :
  Forall (fun e => reply_event e = true) (first_reply response).
Proof. unfold first_reply. case_bool_decide; repeat constructor. Qed.

Lemma Drain_events dp tr fl :
  Drain lib dp tr fl -> Forall (fun e => reply_event e = true) tr.
Proof. induction 1; repeat constructor; done. Qed.

Lemma reply_shell_event e : reply_event e = true -> shell_event e = true.
Proof. by destruct e as [[]| | | | | | | | | | | | | | | | | | | | | | |]. Qed.

Lemma Shell_events dp tr fl :
  Shell lib dp tr fl -> Forall (fun e => shell_event e = true) tr.
Proof.
  induction 1; repeat constructor; try done.
  - apply Forall_app. split.
    { eapply Forall_impl; [apply first_reply_events|]. apply reply_shell_event. }
    apply Forall_app. split; [|done].
    eapply Forall_impl; [by eapply Drain_events|]. apply reply_shell_event.
  - apply Forall_app. split.
    { eapply Forall_impl; [apply first_reply_events|]. apply reply_shell_event. }
    eapply Forall_impl; [by eapply Drain_events|]. apply reply_shell_event.
Qed.

Lemma Drain_flow dp tr fl :
  Drain lib dp tr fl -> fl = Next \/ fl = Halt OutOfFuel.
Proof. induction 1; auto. Qed.

(** The shell never stops on a fault: no access to [command] or [argv]
    is out of bounds. *)
Lemma Shell_flow dp tr fl :
  Shell lib dp tr fl -> fl = Next \/ fl = Halt OutOfFuel.
Proof.
  induction 1; auto.
  match goal with H : Drain _ _ _ _ |- _ => apply Drain_flow in H as [?|?] end;
    [done|by right].
Qed.

(** A round starts with the prompt. *)
Lemma Shell_head dp tr fl :
  Shell lib dp tr fl ->
  (tr = [] /\ fl = Halt OutOfFuel) \/ exists l', tr = prompt ++ l'.
Proof. destruct 1; eauto. Qed.

Lemma ends_with_app (P : Event -> Prop) (a tr : list Event) :
  (exists l0 x, tr = l0 ++ [x] /\ P x) ->
  exists l0 x, a ++ tr = l0 ++ [x] /\ P x.
Proof.
  intros (l0 & x & -> & Hx). exists (a ++ l0), x. by rewrite app_assoc.
Qed.

Lemma ends_with_cons (P : Event -> Prop) (e : Event) (tr : list Event) :
  (exists l0 x, tr = l0 ++ [x] /\ P x) ->
  exists l0 x, e :: tr = l0 ++ [x] /\ P x.
Proof. apply (ends_with_app P [e]). Qed.

(** The loop is left right after a read that ends it. *)
Lemma Shell_last dp tr :
  Shell lib dp tr Next ->
  exists l0 got, tr = l0 ++ [Ev_fgets got] /\ leaves_shell got.
Proof.
  intros H. remember Next as fl eqn:Hfl.
  assert (Hend : forall tr,
    (exists l0 x, tr = l0 ++ [x] /\ exists got, x = Ev_fgets got /\ leaves_shell got) ->
    exists l0 got, tr = l0 ++ [Ev_fgets got] /\ leaves_shell got).
  { intros tr' (l0 & x & -> & got & -> & Hg). eauto. }
  induction H; try discriminate; apply Hend.
  - exists prompt, (Ev_fgets None). split; [done|]. eexists. split; [done|by left].
  - exists prompt, (Ev_fgets (Some chars)). split; [done|].
    eexists. split; [done|]. right. eauto.
  - destruct (IHShell Hfl) as (l0 & got & -> & Hgot).
    apply ends_with_app. do 3 apply ends_with_cons. eauto 6.
  - destruct (IHShell Hfl) as (l0 & got & -> & Hgot).
    apply ends_with_app. do 5 apply ends_with_cons. eauto 6.
  - destruct (IHShell Hfl) as (l0 & got & -> & Hgot).
    apply ends_with_app. do 4 apply ends_with_cons.
    do 2 apply ends_with_app. eauto 6.
Qed.


Lemma count_shell kind tr :
  (forall e, shell_event e = true -> kind e = false) ->
  Forall (fun e => shell_event e = true) tr -> count kind tr = 0.
Proof.
  intros Hk. induction 1 as [|e tr He _ IH]; [done|].
  unfold count in *. simpl. by rewrite (Hk e He).
Qed.

Lemma failed_success : failed lib (IdeviceSuccess lib) = false.
Proof. unfold failed. by rewrite Z.eqb_refl. Qed.

Lemma failed_true err : failed lib err = true <-> err <> IdeviceSuccess lib.
Proof. unfold failed. rewrite negb_true_iff. apply Z.eqb_neq. Qed.

Lemma Drain_Drained dp d fl :
  Drain lib dp d fl ->
  forall k out,
    (fl = Next -> followed_by_prompt out k) ->
    (forall o, fl = Halt o -> k = [] /\ out = o) ->
    Drained lib dp out (d ++ k).
Proof.
  induction 1 as [|err response Hstop|err r tr fl Herr Hd IH];
    intros k out Hnext Hhalt; cbn [app].
  - destruct (Hhalt _ eq_refl) as [-> ->]. by apply Drained_starved.
  - apply Drained_end; [|by apply Hnext].
    destruct Hstop as [Hf | ->]; [left|by right].
    unfold failed in Hf. apply negb_true_iff in Hf. by apply Z.eqb_neq in Hf.
  - unfold failed in Herr. apply negb_false_iff in Herr.
    apply Z.eqb_eq in Herr as ->.
    apply Drained_packet. by apply IH.
Qed.

Lemma round_law_reply out l1 e l2 :
  reply_event e = true -> round_law lib out l1 e l2.
Proof. by destruct e. Qed.

Lemma Shell_followed_by_prompt dp tr fl post out :
  Shell lib dp tr fl ->
  (forall o, fl = Halt o -> post = [] /\ out = o) ->
  followed_by_prompt out (tr ++ post).
Proof.
  intros Hs Hhalt. destruct (Shell_head _ _ _ Hs) as [[-> ->]|[l' ->]].
  - right. destruct (Hhalt _ eq_refl) as [-> ->]. done.
  - left. exists (l' ++ post). by rewrite <- app_assoc.
Qed.

Lemma not_leaving chars :
  entered_line chars <> lit "quit" -> ~ leaves_shell (Some chars).
Proof. intros Hn [?|(c & [= <-] & ?)]; done. Qed.

Lemma fgets_law_line out l1 chars e l2 :
  length chars <= MAX_COMMAND_LENGTH - 1 ->
  entered_line chars <> lit "quit" ->
  (exists name argv argc cmd, e = Ev_command_new name argv argc cmd) ->
  fgets_law lib out l1 (Some chars) (e :: l2).
Proof.
  intros Hlen Hnq (name & argv & argc & cmd & ->). split.
  - intros Hl. by apply not_leaving in Hl.
  - intros c [= <-]. split; [done|]. intros _. by do 5 eexists.
Qed.

Lemma fgets_law_leave out l1 got dp h a :
  leaves_shell got ->
  (forall chars, got = Some chars -> length chars <= MAX_COMMAND_LENGTH - 1) ->
  out = Returned 0 ->
  In (Ev_debug_proxy_connect_rsd a h (IdeviceSuccess lib) dp) l1 ->
  fgets_law lib out l1 got (cleanup dp h a).
Proof.
  intros Hl Hlen -> Hin. split.
  - intros _. split; [done|]. by exists dp, h, a.
  - intros chars ->. split; [by apply Hlen|].
    intros Hn. by apply not_leaving in Hl.
Qed.

Lemma command_new_law_intro pre chars name argv argc cmd e l2 :
  entered_line chars <> lit "quit" ->
  command_of_line (entered_line chars) name argv argc ->
  (cmd = NULL /\ e = Ev_printf stderr "Failed to create command\n" [] \/
   cmd <> NULL /\ exists dp err response, e = Ev_send_command dp cmd err response) ->
  command_new_law (pre ++ [Ev_fgets (Some chars)]) name argv argc cmd (e :: l2).
Proof.
  intros Hnq Hcmd He. split; [by exists pre, chars|].
  destruct He as [[-> ->]|[Hn (dp & err & response & ->)]].
  - left. split; [done|]. by eexists.
  - right. split; [done|]. by do 4 eexists.
Qed.

(** Every event of the shell obeys the law of its round. *)
Lemma Shell_rounds dp tr fl :
  Shell lib dp tr fl ->
  forall pre post out h a,
    In (Ev_debug_proxy_connect_rsd a h (IdeviceSuccess lib) dp) pre ->
    (fl = Next -> post = cleanup dp h a /\ out = Returned 0) ->
    (forall o, fl = Halt o -> post = [] /\ out = o) ->
    each_split (fun l1 e l2 => round_law lib out l1 e (l2 ++ post)) pre tr.
Proof.
  induction 1 as
    [ | | chars Hlen Hquit
    | chars name argv argc tr fl Hlen Hnq Hcmd Hs IH
    | chars name argv argc cmd err response tr fl Hlen Hnq Hcmd Hnull Herr Hs IH
    | chars name argv argc cmd err response drained tr fl
        Hlen Hnq Hcmd Hnull Herr Hd Hs IH
    | chars name argv argc cmd err response drained o
        Hlen Hnq Hcmd Hnull Herr Hd ];
    intros pre post out h a Hin Hnext Hhalt;
    cbn [each_split app prompt round_law].
  - exact I.
  - destruct (Hnext eq_refl) as [-> ->].
    split; [exact I|]. split; [exact I|]. split; [|exact I].
    apply fgets_law_leave; [by left|done|done|].
    apply in_or_app. left. apply in_or_app. by left.
  - destruct (Hnext eq_refl) as [-> ->].
    split; [exact I|]. split; [exact I|]. split; [|exact I].
    apply fgets_law_leave; [right; eauto|by intros c [= <-]|done|].
    apply in_or_app. left. apply in_or_app. by left.
  - split; [exact I|]. split; [exact I|].
    split; [apply fgets_law_line; eauto 6|].
    split; [apply command_new_law_intro; auto|].
    split; [exact I|].
    apply (IH _ post out h a); [|done|done]. repeat (apply in_or_app; left). done.
  - split; [exact I|]. split; [exact I|].
    split; [apply fgets_law_line; eauto 6|].
    split; [apply command_new_law_intro; eauto 8|].
    split.
    { split_and!.
      - eexists _, chars, name, argv, argc. by rewrite <- app_assoc.
      - intros _. eexists. split; [reflexivity|].
        by eapply Shell_followed_by_prompt.
      - intros ->. by rewrite failed_success in Herr. }
    split; [exact I|]. split; [exact I|].
    apply (IH _ post out h a); [|done|done]. repeat (apply in_or_app; left). done.
  - split; [exact I|]. split; [exact I|].
    split; [apply fgets_law_line; eauto 6|].
    split; [apply command_new_law_intro; eauto 8|].
    split.
    { split_and!.
      - eexists _, chars, name, argv, argc. by rewrite <- app_assoc.
      - intros Hne. apply failed_true in Hne. congruence.
      - intros _. eexists. split; [rewrite <- !app_assoc; reflexivity|].
        eapply Drain_Drained; [exact Hd| |done].
        intros _. by eapply Shell_followed_by_prompt. }
    split; [exact I|].
    apply each_split_app.
    { eapply each_split_Forall; [apply first_reply_events|].
      intros. by apply round_law_reply. }
    apply each_split_app.
    { eapply each_split_Forall; [by eapply Drain_events|].
      intros. by apply round_law_reply. }
    apply (IH _ post out h a); [|done|done]. repeat (apply in_or_app; left). done.
  - destruct (Hhalt _ eq_refl) as [-> ->].
    split; [exact I|]. split; [exact I|].
    split; [apply fgets_law_line; eauto 6|].
    split; [apply command_new_law_intro; eauto 8|].
    split.
    { split_and!.
      - eexists _, chars, name, argv, argc. by rewrite <- app_assoc.
      - intros Hne. apply failed_true in Hne. congruence.
      - intros _. eexists. split; [rewrite <- !app_assoc; reflexivity|].
        eapply Drain_Drained; [exact Hd|done|].
        by intros o' [= ->]. }
    split; [exact I|].
    apply each_split_app.
    { eapply each_split_Forall; [apply first_reply_events|].
      intros. by apply round_law_reply. }
    eapply each_split_Forall; [by eapply Drain_events|].
    intros. by apply round_law_reply.
Qed.

End ShellFacts.

(** ** The runs of [main] *)

Lemma max_line_length : MAX_COMMAND_LENGTH - 1 = 1023.
Proof. reflexivity. Qed.

Section Claims.

Context {W : Type} (lib : Library W).

Local Opaque MAX_COMMAND_LENGTH.

Lemma initial_command_length (stack : nat -> ascii) :
  length (map stack (seq 0 MAX_COMMAND_LENGTH)) = MAX_COMMAND_LENGTH.
Proof. by rewrite length_map, length_seq. Qed.

Lemma count_app kind (a b : list Event) :
  count kind (a ++ b) = count kind a + count kind b.
Proof. unfold count. by rewrite List.filter_app, length_app. Qed.

Ltac unfold_calls H :=
  unfold print_usage, idevice_init_logger, idevice_pairing_file_read,
    idevice_pairing_file_free, idevice_tcp_provider_new, idevice_provider_free,
    core_device_proxy_connect, core_device_proxy_get_server_rsd_port,
    core_device_proxy_free, core_device_proxy_create_tcp_adapter,
    adapter_connect, adapter_close, adapter_free, rsd_handshake_new,
    rsd_handshake_free, debug_proxy_connect_rsd, debug_proxy_free,
    printf, fprintf, fflush in H;
  unfold bind, emit, call, call_void, ret in H.

Ltac destruct_call H :=
  match type of H with
  | context [inet_pton ?l ?f ?s] =>
      destruct (inet_pton l f s) as [? ?] eqn:?
  | context [ffi_idevice_pairing_file_read ?W ?l ?a ?w] =>
      destruct (ffi_idevice_pairing_file_read W l a w) as [[? ?] ?] eqn:?
  | context [ffi_idevice_tcp_provider_new ?W ?l ?a ?b ?c ?w] =>
      destruct (ffi_idevice_tcp_provider_new W l a b c w) as [[? ?] ?] eqn:?
  | context [ffi_core_device_proxy_connect ?W ?l ?a ?w] =>
      destruct (ffi_core_device_proxy_connect W l a w) as [[? ?] ?] eqn:?
  | context [ffi_core_device_proxy_get_server_rsd_port ?W ?l ?a ?w] =>
      destruct (ffi_core_device_proxy_get_server_rsd_port W l a w)
        as [[? ?] ?] eqn:?
  | context [ffi_core_device_proxy_create_tcp_adapter ?W ?l ?a ?w] =>
      destruct (ffi_core_device_proxy_create_tcp_adapter W l a w)
        as [[? ?] ?] eqn:?
  | context [ffi_adapter_connect ?W ?l ?a ?b ?w] =>
      destruct (ffi_adapter_connect W l a b w) as [[? ?] ?] eqn:?
  | context [ffi_rsd_handshake_new ?W ?l ?a ?w] =>
      destruct (ffi_rsd_handshake_new W l a w) as [[? ?] ?] eqn:?
  | context [ffi_debug_proxy_connect_rsd ?W ?l ?a ?b ?w] =>
      destruct (ffi_debug_proxy_connect_rsd W l a b w) as [[? ?] ?] eqn:?
  end.

(** Case analysis of a run of [main]: one goal per way out of it (the
    usage message, the bad address, each failing stage, and the shell
    left normally or for lack of fuel). *)
Ltac main_cases H :=
  unfold main in H; unfold_calls H;
  repeat match type of H with
    | context [if 2 <? ?n then ?a else ?b] =>
        let f := fresh "pairing_file" in
        set (f := if 2 <? n then a else b) in H
    | context [map ?stack (seq 0 MAX_COMMAND_LENGTH)] =>
        let c := fresh "command0" in
        let Hc := fresh "Hcommand0" in
        pose proof (initial_command_length stack) as Hc;
        set (c := map stack (seq 0 MAX_COMMAND_LENGTH)) in H, Hc
    | context [lit ?x] =>
        let c := fresh "label" in set (c := lit x) in H
    end;
  cbn [fst snd] in H;
  repeat first
    [ progress cbn [fst snd negb] in H
    | match type of H with
      | context [shell ?l ?f ?d true ?i ?c ?s ?w] =>
          let Hs := fresh "Hshell" in
          let fl := fresh "fl" in
          let tr := fresh "shell_tr" in
          destruct (shell l f d true i c s w) as [[fl ?] tr] eqn:Hs;
          apply shell_grammar in Hs; [|assumption];
          destruct fl
      | context [if negb ?c then _ else _] => destruct c eqn:?
      | context [if ?c then _ else _] => destruct c eqn:?
      end
    | destruct_call H ];
  cbn [app] in H; injection H as <- _ <-;
  repeat match goal with
    | H : failed lib _ = false |- _ => apply failed_false in H; subst
    | H : failed lib _ = true |- _ => apply failed_true in H
    end.

(** From a property of every split of a trace to [each_split]. *)
Ltac by_each_split P :=
  let l1 := fresh "l1" in let e := fresh "e" in let l2 := fresh "l2" in
  let Heq := fresh "Heq" in
  intros l1 e l2 Heq;
  refine (each_split_spec P _ [] _ l1 e l2 Heq);
  clear Heq l1 e l2; cbn [each_split app].

Ltac solve_Forall :=
  repeat first
    [ apply List.Forall_nil
    | apply List.Forall_cons; [reflexivity|]
    | apply Forall_app; split
    | eapply Forall_impl; [eassumption|]; intros []; cbn; congruence ].



(** C7: once [core_device_proxy_create_tcp_adapter] has succeeded, no
    call on the CoreDeviceProxy handle follows. *)
Theorem C7_core_device_unused_after_adapter fuel argv stdin stack w :
  let r := main lib fuel argv stdin stack w in
  forall l1 l2 core_device adapter,
    trace_of r
    = l1 ++ Ev_create_tcp_adapter core_device (IdeviceSuccess lib) adapter :: l2 ->
    Forall (fun e => core_device_call e = false) l2.
Proof.
  intros r. subst r.
  destruct (main lib fuel argv stdin stack w) as [[out w'] tr] eqn:H.
  unfold trace_of. cbn [snd].
  enough (each_split
            (fun _ e l2 => forall core_device adapter,
               e = Ev_create_tcp_adapter core_device (IdeviceSuccess lib) adapter ->
               Forall (fun e => core_device_call e = false) l2) [] tr) as HP.
  { intros l1 l2 core_device adapter Heq.
    exact (each_split_spec _ _ [] HP l1 _ l2 Heq _ _ eq_refl). }
  main_cases H.
  all: try match goal with
       | Hs : Shell _ _ ?t _ |- _ => apply Shell_events in Hs
       end.
  all: cbn [each_split app].
  all: repeat (apply conj;
               [intros cd ad Hev; simplify_eq; first [done|solve_Forall]|]).
  all: try exact I.
  all: apply each_split_app; [|cbn [each_split]];
       [eapply each_split_Forall; [exact Hshell|];
        intros ? [] ? He' cd ad Hev; discriminate
       |].
  all: repeat (apply conj; [by intros cd ad Hev|]); exact I.
Qed.

Lemma count_cons kind e (l : list Event) :
  count kind (e :: l) = (if kind e then 1 else 0) + count kind l.
Proof. unfold count. simpl. by destruct (kind e). Qed.

Lemma count_nil kind : count kind [] = 0.
Proof. done. Qed.

Ltac solve_count :=
  rewrite ?count_cons, ?count_app, ?count_cons, ?count_nil;
  repeat match goal with
    | Hs : Forall (fun e => shell_event e = true) ?t |- context [count ?k ?t] =>
        rewrite (count_shell k t) by (first [by intros []|exact Hs])
    end;
  reflexivity.

Ltac solve_In :=
  cbn [In app]; repeat first [left; reflexivity | right].

(** C3: the stream to the discovery service is opened once, on the port
    that the one call of [core_device_proxy_get_server_rsd_port]
    returned, and the stream so obtained is the one handed to
    [rsd_handshake_new]. *)
Theorem C3_discovery_port_passed_unchanged fuel argv stdin stack w :
  let r := main lib fuel argv stdin stack w in
  (forall l1 l2 adapter port err conn,
     trace_of r = l1 ++ Ev_adapter_connect adapter port err conn :: l2 ->
     (exists core_device,
        In (Ev_get_server_rsd_port core_device (IdeviceSuccess lib) port) l1) /\
     count is_port_query (trace_of r) = 1 /\
     count is_adapter_connect (trace_of r) = 1) /\
  (forall l1 l2 conn err handshake,
     trace_of r = l1 ++ Ev_rsd_handshake_new conn err handshake :: l2 ->
     exists adapter port,
       In (Ev_adapter_connect adapter port (IdeviceSuccess lib) conn) l1).
Proof.
  intros r. subst r.
  destruct (main lib fuel argv stdin stack w) as [[out w'] tr] eqn:H.
  unfold trace_of. cbn [snd].
  enough (each_split
            (fun l1 e _ =>
               (forall adapter port err conn,
                  e = Ev_adapter_connect adapter port err conn ->
                  (exists core_device,
                     In (Ev_get_server_rsd_port core_device (IdeviceSuccess lib) port) l1) /\
                  count is_port_query tr = 1 /\
                  count is_adapter_connect tr = 1) /\
               (forall conn err handshake,
                  e = Ev_rsd_handshake_new conn err handshake ->
                  exists adapter port,
                    In (Ev_adapter_connect adapter port (IdeviceSuccess lib) conn) l1))
            [] tr) as HP.
  { split.
    - intros l1 l2 adapter port err conn Heq.
      exact (proj1 (each_split_spec _ _ [] HP l1 _ l2 Heq) _ _ _ _ eq_refl).
    - intros l1 l2 conn err handshake Heq.
      exact (proj2 (each_split_spec _ _ [] HP l1 _ l2 Heq) _ _ _ eq_refl). }
  main_cases H.
  all: try match goal with
       | Hs : Shell _ _ ?t _ |- _ => apply Shell_events in Hs
       end.
  all: cbn [each_split app].
  all: repeat (apply conj;
               [split;
                [intros ad port err conn Hev;
                 first [discriminate Hev
                       |simplify_eq;
                        split_and!; [eexists; solve_In|solve_count|solve_count]]
                |intros conn err hs Hev;
                 first [discriminate Hev
                       |simplify_eq; do 2 eexists; solve_In]]|]).
  all: try exact I.
  all: apply each_split_app; [|cbn [each_split]];
       [eapply each_split_Forall; [exact Hshell|];
        intros ? [] ? He'; split; intros; discriminate
       |].
  all: repeat (apply conj; [split; intros; discriminate|]); exact I.
Qed.

(** Every event of a run obeys the law of its round. *)
Lemma main_rounds fuel argv stdin stack w out w' tr :
  main lib fuel argv stdin stack w = (out, w', tr) ->
  each_split (round_law lib out) [] tr.
Proof.
  intros H. main_cases H.
  all: cbn [each_split app round_law].
  all: repeat (apply conj; [exact I|]).
  all: try exact I.
  all: apply each_split_app; [|cbn [each_split round_law]; tauto].
  - eapply Shell_rounds; [exact Hshell| |done|done]. solve_In.
  - eapply (Shell_rounds _ _ _ _ Hshell); [solve_In|done|].
    by intros o' [= ->].
Qed.

(** How [main] ends: it returns 0 or 1, or the model runs out of fuel;
    it never stops on an access out of bounds. *)
Lemma main_outcomes fuel argv stdin stack w out w' tr :
  main lib fuel argv stdin stack w = (out, w', tr) ->
  out = Returned 0 \/ out = Returned 1 \/ out = OutOfFuel.
Proof.
  intros H. main_cases H; auto.
  apply Shell_flow in Hshell as [?|[= ->]]; [done|auto].
Qed.

(** C2: after a command is sent with success, the driver frees it, shows
    the response the call returned, then reads further responses and
    prints each in the order read, until a read fails or yields null;
    only then does the next prompt follow. *)
Theorem C2_replies_drained_before_next_prompt fuel argv stdin stack w :
  let r := main lib fuel argv stdin stack w in
  forall l1 l2 debug_proxy cmd err response,
    trace_of r = l1 ++ Ev_send_command debug_proxy cmd err response :: l2 ->
    err = IdeviceSuccess lib ->
    exists l3,
      l2 = Ev_command_free cmd :: first_reply response ++ l3 /\
      Drained lib debug_proxy (outcome_of r) l3.
Proof.
  intros r. subst r.
  destruct (main lib fuel argv stdin stack w) as [[out w'] tr] eqn:H.
  unfold trace_of, outcome_of. cbn [fst snd].
  intros l1 l2 dp cmd err response Heq Herr.
  pose proof (each_split_spec _ _ [] (main_rounds _ _ _ _ _ _ _ _ H) _ _ _ Heq)
    as (_ & _ & Hsent).
  by apply Hsent.
Qed.

(** C6: a command that is sent is the one just created from the line
    just read, so none is sent twice; when the send fails the command is
    freed, the error is printed and the next prompt follows. *)
Theorem C6_failed_send_reported_not_retried fuel argv stdin stack w :
  let r := main lib fuel argv stdin stack w in
  forall l1 l2 debug_proxy cmd err response,
    trace_of r = l1 ++ Ev_send_command debug_proxy cmd err response :: l2 ->
    (exists l0 chars name argv argc,
       l1 = l0 ++ [Ev_fgets (Some chars); Ev_command_new name argv argc cmd]) /\
    (err <> IdeviceSuccess lib ->
     exists l3,
       l2 = Ev_command_free cmd
              :: Ev_printf stderr "Command failed with error: %d\n" [ArgInt err]
              :: l3 /\
       followed_by_prompt (outcome_of r) l3).
Proof.
  intros r. subst r.
  destruct (main lib fuel argv stdin stack w) as [[out w'] tr] eqn:H.
  unfold trace_of, outcome_of. cbn [fst snd].
  intros l1 l2 dp cmd err response Heq.
  pose proof (each_split_spec _ _ [] (main_rounds _ _ _ _ _ _ _ _ H) _ _ _ Heq)
    as (Hfresh & Hfail & _).
  done.
Qed.

(** What the run does with a line it has read, other than [quit]: the
    next event is the creation of the command of that line. *)
Lemma main_line fuel argv stdin stack w out w' tr l1 chars l2 :
  main lib fuel argv stdin stack w = (out, w', tr) ->
  tr = l1 ++ Ev_fgets (Some chars) :: l2 ->
  entered_line chars <> lit "quit" ->
  exists name argv argc cmd l3,
    l2 = Ev_command_new name argv argc cmd :: l3 /\
    command_of_line (entered_line chars) name argv argc.
Proof.
  intros H Heq Hnq. pose proof (main_rounds _ _ _ _ _ _ _ _ H) as Hall.
  pose proof (each_split_spec _ _ [] Hall _ _ _ Heq) as [_ Hline].
  destruct (Hline chars eq_refl) as [_ Hnew].
  destruct (Hnew Hnq) as (name & argv' & argc & cmd & l3 & ->).
  exists name, argv', argc, cmd, l3. split; [done|].
  assert (Heq' : tr = (l1 ++ [Ev_fgets (Some chars)])
                        ++ Ev_command_new name argv' argc cmd :: l3)
    by (by rewrite <- app_assoc).
  pose proof (each_split_spec _ _ [] Hall _ _ _ Heq')
    as [(l0 & chars' & Hl1 & _ & Hcmd) _].
  cbn [app] in Hl1. apply app_inj_tail in Hl1 as [_ [= <-]]. done.
Qed.

(** C4 (as amended): a line other than [quit] with at least one token is
    turned into a command whose name is the first token and whose
    arguments are the following tokens in order, up to the fifteenth;
    with nothing after the name the argument count is 0. *)
Theorem C4_command_is_name_and_first_arguments fuel argv stdin stack w :
  let r := main lib fuel argv stdin stack w in
  forall l1 l2 chars name rest,
    trace_of r = l1 ++ Ev_fgets (Some chars) :: l2 ->
    tokens (entered_line chars) = name :: rest ->
    entered_line chars <> lit "quit" ->
    exists argv argc cmd l3,
      l2 = Ev_command_new (Some name) argv argc cmd :: l3 /\
      passed argv argc = map Some (take 15 rest) /\
      argc = length (take 15 rest) /\
      (rest = [] -> argc = 0).
Proof.
  intros r. subst r.
  destruct (main lib fuel argv stdin stack w) as [[out w'] tr] eqn:H.
  unfold trace_of. cbn [snd].
  intros l1 l2 chars name rest Heq Htok Hnq.
  destruct (main_line _ _ _ _ _ _ _ _ _ _ _ H Heq Hnq)
    as (name' & argv' & argc & cmd & l3 & -> & Hname & Hargs & Hargc).
  rewrite Htok in Hname, Hargs, Hargc. cbn [head tail] in *. subst name'.
  exists argv', argc, cmd, l3. split_and!; try done.
  intros ->. by rewrite Hargc.
Qed.

(** C8: a command is never created with more than fifteen arguments; of a
    line with more than fifteen tokens after the name the first fifteen
    are passed, and nothing is said of the others: what follows is the
    send (or the message that no command was created). *)
Theorem C8_at_most_fifteen_arguments fuel argv stdin stack w :
  let r := main lib fuel argv stdin stack w in
  forall l1 l2 name argv argc cmd,
    trace_of r = l1 ++ Ev_command_new name argv argc cmd :: l2 ->
    argc <= 15 /\ length (passed argv argc) = argc /\
    exists l0 chars,
      l1 = l0 ++ [Ev_fgets (Some chars)] /\
      (15 < length (tail (tokens (entered_line chars))) ->
       argc = 15 /\
       passed argv argc
       = map Some (take 15 (tail (tokens (entered_line chars))))) /\
      ((cmd = NULL /\
        exists l3, l2 = Ev_printf stderr "Failed to create command\n" [] :: l3) \/
       (cmd <> NULL /\
        exists debug_proxy err response l3,
          l2 = Ev_send_command debug_proxy cmd err response :: l3)).
Proof.
  intros r. subst r.
  destruct (main lib fuel argv stdin stack w) as [[out w'] tr] eqn:H.
  unfold trace_of. cbn [snd].
  intros l1 l2 name argv' argc cmd Heq.
  pose proof (each_split_spec _ _ [] (main_rounds _ _ _ _ _ _ _ _ H) _ _ _ Heq)
    as [(l0 & chars & Hl1 & _ & Hname & Hargs & Hargc) Hnext].
  cbn [app] in Hl1.
  split; [rewrite Hargc, length_take; lia|].
  split; [by rewrite Hargs, length_map|].
  exists l0, chars. split; [done|]. split; [|done].
  intros Hlong. split; [|done]. rewrite Hargc, length_take. lia.
Qed.

(** A run that returns 0 frees each of its three handles once. *)
Lemma main_frees fuel argv stdin stack w out w' tr :
  main lib fuel argv stdin stack w = (out, w', tr) ->
  out = Returned 0 ->
  count frees_debug_proxy tr = 1 /\
  count frees_handshake tr = 1 /\
  count frees_adapter tr = 1.
Proof.
  intros H Hout. main_cases H; try discriminate Hout.
  - apply Shell_events in Hshell. split_and!; solve_count.
  - apply Shell_flow in Hshell as [?|[= ->]]; discriminate.
Qed.

(** The cleanup follows a read that ends the loop. *)
Lemma main_cleanup_after_leaving fuel argv stdin stack w out w' tr :
  main lib fuel argv stdin stack w = (out, w', tr) ->
  forall l1 debug_proxy l2,
    tr = l1 ++ Ev_debug_proxy_free debug_proxy :: l2 ->
    exists l0 got, l1 = l0 ++ [Ev_fgets got] /\ leaves_shell got.
Proof.
  intros H.
  enough (each_split
            (fun l1 e _ => forall debug_proxy,
               e = Ev_debug_proxy_free debug_proxy ->
               exists l0 got, l1 = l0 ++ [Ev_fgets got] /\ leaves_shell got)
            [] tr) as HP.
  { intros l1 dp l2 Heq. exact (each_split_spec _ _ [] HP l1 _ l2 Heq _ eq_refl). }
  main_cases H.
  all: cbn [each_split app].
  all: repeat (apply conj; [by intros dp Hev|]).
  all: try exact I.
  all: apply each_split_app;
       [eapply each_split_Forall; [by eapply Shell_events|];
        intros ? [] ? He' dp Hev; discriminate|].
  - cbn [each_split]. split; [|by repeat split].
    intros dp _. destruct (Shell_last _ _ _ Hshell) as (l0 & got & -> & Hgot).
    eexists (_ ++ l0), got. split; [|done]. by rewrite app_assoc.
  - exact I.
Qed.

(** C9: the loop is left exactly on end of file or on the line [quit]:
    such a read is followed by the cleanup alone, which frees the debug
    proxy, the handshake and the adapter of the setup, each once in the
    whole run, and [main] returns 0; the cleanup is reached in no other
    way; and after the line [quit] no command is created or sent. *)
Theorem C9_shell_left_on_eof_or_quit fuel argv stdin stack w :
  let r := main lib fuel argv stdin stack w in
  (forall l1 got l2,
     trace_of r = l1 ++ Ev_fgets got :: l2 -> leaves_shell got ->
     outcome_of r = Returned 0 /\
     (exists debug_proxy handshake adapter,
        l2 = cleanup debug_proxy handshake adapter /\
        In (Ev_debug_proxy_connect_rsd adapter handshake (IdeviceSuccess lib)
              debug_proxy) l1) /\
     count frees_debug_proxy (trace_of r) = 1 /\
     count frees_handshake (trace_of r) = 1 /\
     count frees_adapter (trace_of r) = 1) /\
  (forall l1 debug_proxy l2,
     trace_of r = l1 ++ Ev_debug_proxy_free debug_proxy :: l2 ->
     exists l0 got, l1 = l0 ++ [Ev_fgets got] /\ leaves_shell got) /\
  (forall l1 chars l2,
     trace_of r = l1 ++ Ev_fgets (Some chars) :: l2 ->
     entered_line chars = lit "quit" ->
     Forall (fun e => command_event e = false) l2).
Proof.
  intros r. subst r.
  destruct (main lib fuel argv stdin stack w) as [[out w'] tr] eqn:H.
  unfold trace_of, outcome_of. cbn [fst snd].
  assert (Hleave : forall l1 got l2,
            tr = l1 ++ Ev_fgets got :: l2 -> leaves_shell got ->
            out = Returned 0 /\
            exists debug_proxy handshake adapter,
              l2 = cleanup debug_proxy handshake adapter /\
              In (Ev_debug_proxy_connect_rsd adapter handshake
                    (IdeviceSuccess lib) debug_proxy) l1).
  { intros l1 got l2 Heq Hgot.
    pose proof (each_split_spec _ _ [] (main_rounds _ _ _ _ _ _ _ _ H) _ _ _ Heq)
      as [Hl _].
    by apply Hl. }
  split_and!.
  - intros l1 got l2 Heq Hgot.
    destruct (Hleave _ _ _ Heq Hgot) as [-> Hclean].
    split; [done|]. split; [done|]. by eapply main_frees.
  - by eapply main_cleanup_after_leaving.
  - intros l1 chars l2 Heq Hquit.
    destruct (Hleave _ _ _ Heq) as [_ (dp & h & a & -> & _)].
    { right. eauto. }
    repeat constructor.
Qed.

(** C10: a line read into [command] has at most 1023 characters, the
    terminator written over its newline lies inside the array, and no
    access of a run to [command] or [argv] is out of bounds. *)
Theorem C10_command_line_fits_buffer fuel argv stdin stack w :
  let r := main lib fuel argv stdin stack w in
  outcome_of r <> Fault /\
  (forall l1 chars l2,
     trace_of r = l1 ++ Ev_fgets (Some chars) :: l2 ->
     length chars <= 1023 /\
     length (entered_line chars) <= 1023 /\
     newline ∉ entered_line chars) /\
  (forall command input,
     length command = MAX_COMMAND_LENGTH ->
     fgets command MAX_COMMAND_LENGTH input = Some FgetsNull \/
     exists chars command1 rest n command2,
       fgets command MAX_COMMAND_LENGTH input
       = Some (FgetsLine chars command1 rest) /\
       length chars <= 1023 /\
       length command1 = MAX_COMMAND_LENGTH /\
       strcspn command1 [newline] = Some n /\
       n < MAX_COMMAND_LENGTH /\
       store command1 n NUL = Some command2 /\
       length command2 = MAX_COMMAND_LENGTH /\
       cstr_at command2 0 (entered_line chars)).
Proof.
  intros r. subst r.
  destruct (main lib fuel argv stdin stack w) as [[out w'] tr] eqn:H.
  unfold trace_of, outcome_of. cbn [fst snd].
  split_and!.
  - by destruct (main_outcomes _ _ _ _ _ _ _ _ H) as [->|[->| ->]].
  - intros l1 chars l2 Heq.
    pose proof (each_split_spec _ _ [] (main_rounds _ _ _ _ _ _ _ _ H) _ _ _ Heq)
      as [_ Hline].
    destruct (Hline chars eq_refl) as [Hlen _].
    rewrite max_line_length in Hlen.
    pose proof (entered_line_length chars).
    split_and!; [done|lia|apply entered_line_clean].
  - intros command input Hlen.
    destruct (fgets_spec command input Hlen)
      as [[Hf _] | (chars & rest & post & Hf & _ & _ & Hchars & Hlen1)];
      [by left|right].
    destruct (strip_newline_spec chars post)
      as (command2 & Hspn & Hst & Hlen2 & Hat).
    exists chars, (chars ++ NUL :: post), rest,
      (length (entered_line chars)), command2.
    rewrite max_line_length in Hchars.
    pose proof (entered_line_length chars).
    split_and!; try done.
    + rewrite <- Hlen1, length_app. cbn [length]. lia.
    + congruence.
Qed.

Lemma round_law_reported out l1 e l2 :
  shell_event e = true /\ round_law lib out l1 e l2 ->
  forall err, error_code e = Some err -> err <> IdeviceSuccess lib ->
              is_read_response e = false -> reported err l2.
Proof.
  intros [Hshell Hlaw] err Hcode Herr Hread.
  destruct e; try discriminate.
  cbn in Hcode. injection Hcode as <-.
  destruct Hlaw as (_ & Hfail & _).
  destruct (Hfail Herr) as (l3 & -> & _).
  do 2 eexists. right. by eexists.
Qed.

(** C5 (as amended): a call other than [debug_proxy_read_response] that
    returns an error code is followed at once (for a send, once the
    command is freed) by a message on [stderr] that carries the code. *)
Theorem C5_failures_reported_except_reads fuel argv stdin stack w :
  let r := main lib fuel argv stdin stack w in
  forall l1 e l2 err,
    trace_of r = l1 ++ e :: l2 ->
    error_code e = Some err -> err <> IdeviceSuccess lib ->
    is_read_response e = false ->
    reported err l2.
Proof.
  intros r. subst r.
  destruct (main lib fuel argv stdin stack w) as [[out w'] tr] eqn:H.
  unfold trace_of. cbn [snd].
  enough (each_split
            (fun _ e l2 => forall err,
               error_code e = Some err -> err <> IdeviceSuccess lib ->
               is_read_response e = false -> reported err l2) [] tr) as HP.
  { intros l1 e l2 err Heq. exact (each_split_spec _ _ [] HP l1 _ l2 Heq err). }
  main_cases H.
  all: cbn [each_split app].
  all: repeat (apply conj;
               [intros err' Hcode Herr' _; cbn in Hcode;
                first [discriminate Hcode
                      |injection Hcode as <-;
                       first [contradiction
                             |do 2 eexists; left; reflexivity]]|]).
  all: try exact I.
  all: apply each_split_app; [|cbn [each_split]; by repeat split].
  - eapply each_split_impl;
      [|eapply each_split_and_Forall; [by eapply Shell_events|];
        eapply (Shell_rounds _ _ _ _ Hshell); [solve_In|done|done]].
    intros l1 e l2 Hlaw. cbv beta in Hlaw.
    exact (round_law_reported _ _ _ _ Hlaw).
  - eapply each_split_impl;
      [|eapply each_split_and_Forall; [by eapply Shell_events|];
        eapply (Shell_rounds _ _ _ _ Hshell);
        [solve_In|done|by intros o' [= ->]]].
    intros l1 e l2 Hlaw. cbv beta in Hlaw.
    exact (round_law_reported _ _ _ _ Hlaw).
Qed.

End Claims.

(** ** The claims on concrete runs *)

(** Every drain of the scripted library ends: a read takes one of the
    packets left. *)
Lemma scripted_drains_end errs : drains_end (scripted errs).
Proof.
  intros dp w. induction w as [|w (n & w' & tr & IH)].
  - exists 1. cbn. rewrite orb_true_r. by do 2 eexists.
  - exists (S n). cbn [read_responses].
    unfold debug_proxy_read_response, idevice_string_free, printf.
    unfold bind, emit, call, call_void, ret. cbn. cbn in IH.
    rewrite IH. by do 2 eexists.
Qed.

(** The scripted session returns on every input. *)
Example scripted_returns errs argv stdin stack :
  exists fuel,
    outcome_of (main (scripted errs) fuel argv stdin stack 0) = Returned 0 \/
    outcome_of (main (scripted errs) fuel argv stdin stack 0) = Returned 1.
Proof. apply main_returns, scripted_drains_end. Qed.


Lemma C2_witness :
  let r := session in
  exists l3,
    drop 23 (trace_of r)
    = Ev_command_free 108%Z :: first_reply (Some (lit "OK")) ++ l3 /\
    Drained (scripted all_succeed) 107%Z (outcome_of r) l3.
Proof.
  apply (C2_replies_drained_before_next_prompt (scripted all_succeed) 16
           sample_argv (lines [lit "m 1 2"; lit "quit"]) sample_stack 0
           (take 22 (trace_of session)) (drop 23 (trace_of session))
           107%Z 108%Z 0%Z (Some (lit "OK"))).
  - vm_compute. reflexivity.
  - reflexivity.
Defined.

Lemma C3_witness :
  let r := session in
  (exists core_device,
     In (Ev_get_server_rsd_port core_device 0%Z 58783%Z) (take 10 (trace_of r))) /\
  count is_port_query (trace_of r) = 1 /\
  count is_adapter_connect (trace_of r) = 1.
Proof.
  apply (proj1 (C3_discovery_port_passed_unchanged (scripted all_succeed) 16
                  sample_argv (lines [lit "m 1 2"; lit "quit"]) sample_stack 0)
           (take 10 (trace_of session)) (drop 11 (trace_of session))
           104%Z 58783%Z 0%Z 105%Z).
  vm_compute. reflexivity.
Defined.

Lemma C4_witness :
  let r := session in
  exists argv argc cmd l3,
    drop 21 (trace_of r) = Ev_command_new (Some (lit "m")) argv argc cmd :: l3 /\
    passed argv argc = map Some (take 15 [lit "1"; lit "2"]) /\
    argc = length (take 15 [lit "1"; lit "2"]) /\
    ([lit "1"; lit "2"] = [] -> argc = 0).
Proof.
  apply (C4_command_is_name_and_first_arguments (scripted all_succeed) 16
           sample_argv (lines [lit "m 1 2"; lit "quit"]) sample_stack 0
           (take 20 (trace_of session)) (drop 21 (trace_of session))
           (lit "m 1 2" ++ [newline]) (lit "m") [lit "1"; lit "2"]).
  - vm_compute. reflexivity.
  - vm_compute. reflexivity.
  - vm_compute. discriminate.
Defined.

(** C4 as first stated fails: of the sixteen tokens that follow the name
    in [long_line] only fifteen are passed. *)
Lemma C4_counterexample :
  let r := long_session in
  exists l1 chars name rest argv argc cmd l2,
    trace_of r
    = l1 ++ Ev_fgets (Some chars)
         :: Ev_command_new (Some name) argv argc cmd :: l2 /\
    tokens (entered_line chars) = name :: rest /\
    entered_line chars <> lit "quit" /\
    length rest = 16 /\ argc = 15 /\
    passed argv argc <> map Some rest.
Proof.
  exists (take 20 (trace_of long_session)), (long_line ++ [newline]), (lit "c"),
    (tail (tokens long_line)),
    (Some (map Some (take 15 (tail (tokens long_line))) ++ [None])), 15, 108%Z,
    (drop 22 (trace_of long_session)).
  split_and!.
  - vm_compute. reflexivity.
  - vm_compute. reflexivity.
  - vm_compute. discriminate.
  - vm_compute. reflexivity.
  - reflexivity.
  - intros Heq. apply (f_equal length) in Heq. vm_compute in Heq. discriminate.
Qed.

Lemma C5_witness :
  let r := send_failure in
  reported 5%Z (drop 23 (trace_of r)).
Proof.
  apply (C5_failures_reported_except_reads (scripted (failing 8 5)) 16
           sample_argv (lines [lit "m"; lit "quit"]) sample_stack 0
           (take 22 (trace_of send_failure))
           (Ev_send_command 107%Z 108%Z 5%Z (Some (lit "OK")))
           (drop 23 (trace_of send_failure)) 5%Z).
  - vm_compute. reflexivity.
  - reflexivity.
  - discriminate.
  - reflexivity.
Defined.

(** C5 as first stated fails: the failing read of [read_failure] is
    followed by no diagnostic; the run writes nothing to [stderr]. *)
Lemma C5_counterexample :
  let r := read_failure in
  exists l1 e l2 err,
    trace_of r = l1 ++ e :: l2 /\
    error_code e = Some err /\
    err <> IdeviceSuccess (scripted (failing 9 7)) /\
    ~ some_diagnostic (trace_of r).
Proof.
  exists (take 32 (trace_of read_failure)), (Ev_read_response 107%Z 7%Z None),
    (drop 33 (trace_of read_failure)), 7%Z.
  split_and!.
  - vm_compute. reflexivity.
  - reflexivity.
  - discriminate.
  - intros (format & args & Hin). vm_compute in Hin.
    repeat (destruct Hin as [Hin|Hin]; [discriminate Hin|]). exact Hin.
Qed.

Lemma C6_witness :
  let r := send_failure in
  (exists l0 chars name argv argc,
     take 22 (trace_of r)
     = l0 ++ [Ev_fgets (Some chars); Ev_command_new name argv argc 108%Z]) /\
  (5%Z <> IdeviceSuccess (scripted (failing 8 5)) ->
   exists l3,
     drop 23 (trace_of r)
     = Ev_command_free 108%Z
         :: Ev_printf stderr "Command failed with error: %d\n" [ArgInt 5%Z]
         :: l3 /\
     followed_by_prompt (outcome_of r) l3).
Proof.
  apply (C6_failed_send_reported_not_retried (scripted (failing 8 5)) 16
           sample_argv (lines [lit "m"; lit "quit"]) sample_stack 0
           (take 22 (trace_of send_failure)) (drop 23 (trace_of send_failure))
           107%Z 108%Z 5%Z (Some (lit "OK"))).
  vm_compute. reflexivity.
Defined.

Lemma C7_witness :
  let r := session in
  Forall (fun e => core_device_call e = false) (drop 10 (trace_of r)).
Proof.
  apply (C7_core_device_unused_after_adapter (scripted all_succeed) 16
           sample_argv (lines [lit "m 1 2"; lit "quit"]) sample_stack 0
           (take 9 (trace_of session)) (drop 10 (trace_of session))
           103%Z 104%Z).
  vm_compute. reflexivity.
Defined.

Lemma C8_witness :
  let r := long_session in
  exists argv,
    nth_error (trace_of r) 21
    = Some (Ev_command_new (Some (lit "c")) argv 15 108%Z) /\
    length (passed argv 15) = 15.
Proof.
  exists (Some (map Some (take 15 (tail (tokens long_line))) ++ [None])).
  split; [vm_compute; reflexivity|].
  apply (C8_at_most_fifteen_arguments (scripted all_succeed) 16
           sample_argv (lines [long_line; lit "quit"]) sample_stack 0
           (take 21 (trace_of long_session)) (drop 22 (trace_of long_session))
           (Some (lit "c"))
           (Some (map Some (take 15 (tail (tokens long_line))) ++ [None]))
           15 108%Z).
  vm_compute. reflexivity.
Defined.

Lemma C9_witness :
  let r := session in
  outcome_of r = Returned 0 /\
  (exists debug_proxy handshake adapter,
     drop 36 (trace_of r) = cleanup debug_proxy handshake adapter /\
     In (Ev_debug_proxy_connect_rsd adapter handshake 0%Z debug_proxy)
        (take 35 (trace_of r))) /\
  count frees_debug_proxy (trace_of r) = 1 /\
  count frees_handshake (trace_of r) = 1 /\
  count frees_adapter (trace_of r) = 1.
Proof.
  apply (proj1 (C9_shell_left_on_eof_or_quit (scripted all_succeed) 16
                  sample_argv (lines [lit "m 1 2"; lit "quit"]) sample_stack 0)
           (take 35 (trace_of session)) (Some (lit "quit" ++ [newline]))
           (drop 36 (trace_of session))).
  - vm_compute. reflexivity.
  - right. exists (lit "quit" ++ [newline]). split; reflexivity.
Defined.

Lemma C10_witness :
  length (lit "m 1 2" ++ [newline]) <= 1023 /\
  length (entered_line (lit "m 1 2" ++ [newline])) <= 1023 /\
  newline ∉ entered_line (lit "m 1 2" ++ [newline]).
Proof.
  apply (proj1 (proj2 (C10_command_line_fits_buffer (scripted all_succeed) 16
                         sample_argv (lines [lit "m 1 2"; lit "quit"])
                         sample_stack 0))
           (take 20 (trace_of session)) (lit "m 1 2" ++ [newline])
           (drop 21 (trace_of session))).
  vm_compute. reflexivity.
Defined.
